(** * flare: camera sync and image catalog

    A shallow embedding of [camera_client.py] (class [CameraClient]),
    [image_database.py] (classes [ImageMetadata], [ImageDatabase]),
    [gui.py] (class [ImageSelectionDialog]) and [main.py].

    Conventions of the embedding.
    - Python [str] is [string]; Python [int] is [Z].  SQLite stores an
      integer in 64 bits, and [sqlite3] raises [OverflowError] when a
      larger one is bound to a statement.  The integers of a record that
      reaches the table are taken within that range; the theorems on
      records that the caller of [add] or [contains] chooses say so
      ([storable]).
    - Python [float] is read as the rational number it denotes ([Q]);
      rounding, infinities, NaN and the range of a float are outside the
      model, and the SQL comparison of two REAL values is [Qeq_bool].
    - A Python [dict] whose iteration order is observed is an association
      list with the insertion order of Python ([dict_set]).
    - The table [images] of the SQLite file is the list of its rows in
      rowid order.
    - Exceptions are values of [exn]; a method is a computation in the
      state-and-error monad [M].
    - What gphoto2, pyusb, exiftool, the clock and the string parsers of
      [int] and [float] answer is given by the class [Externals].  The
      camera session and the local file system do not fail: their calls
      are recorded in the trace of the state.  [os.makedirs] refuses the
      empty path; the destination of [download_new_files] is taken to be
      a path that is not empty.
    - [ThreadPoolExecutor.map] is modelled with the order in which the
      workers finish the tasks as a parameter of [rebuild]. *)

From Stdlib Require Import ZArith QArith String Ascii List Lia Permutation Sorted.

From stdpp Require Import base option list strings gmap.

Set Warnings "-register-all".
Local Open Scope string_scope.
Local Open Scope list_scope.

(** ** [os.path] on POSIX: the three functions the program calls *)

Module posixpath.

Definition sep : ascii := "/"%char.

Fixpoint has_sep (s : string) : bool :=
  match s with
  | EmptyString => false
  | String c r => Ascii.eqb c sep || has_sep r
  end.

Definition startswith_sep (s : string) : bool :=
  match s with
  | String c _ => Ascii.eqb c sep
  | EmptyString => false
  end.

Fixpoint endswith_sep (s : string) : bool :=
  match s with
  | EmptyString => false
  | String c EmptyString => Ascii.eqb c sep
  | String _ r => endswith_sep r
  end.

Definition is_empty (s : string) : bool :=
  match s with EmptyString => true | _ => false end.

(** [join a b]: an absolute [b] replaces [a]; otherwise one separator is
    put between them unless [a] is empty or already ends with one. *)
Definition join (a b : string) : string :=
  if startswith_sep b then b
  else if is_empty a || endswith_sep a then a ++ b
  else a ++ String sep b.

(** [cut p = (p[:i], p[i:])] with [i = p.rfind(sep) + 1]. *)
Fixpoint cut (p : string) : string * string :=
  match p with
  | EmptyString => (EmptyString, EmptyString)
  | String c r =>
      if has_sep r then let '(h, t) := cut r in (String c h, t)
      else if Ascii.eqb c sep then (String c EmptyString, r)
      else (EmptyString, String c r)
  end.

(** [s.rstrip(sep)] *)
Fixpoint rstrip_sep (s : string) : string :=
  match s with
  | EmptyString => EmptyString
  | String c r =>
      let r' := rstrip_sep r in
      if is_empty r' && Ascii.eqb c sep then EmptyString else String c r'
  end.

(** [split p]: head and tail around the last separator; trailing
    separators are stripped from a head that is not all separators. *)
Definition split (p : string) : string * string :=
  let '(head, tail) := cut p in
  let head' := if negb (is_empty head) && negb (is_empty (rstrip_sep head))
               then rstrip_sep head else head in
  (head', tail).

Definition basename (p : string) : string := snd (cut p).

End posixpath.

(** ** Python values, exceptions and built-ins *)

(** The exceptions the program can meet.  All of them are subclasses of
    [Exception], so an [except Exception] clause catches each one.
    [LibraryError] stands for an error raised inside gphoto2, pyusb or
    exiftool. *)
Inductive exn : Type :=
| IndexError (msg : string)
| ValueError
| TypeError
| LibraryError (what : string).

(** [inl e]: the call raised [e]; [inr a]: it returned [a]. *)
Definition Result (A : Type) : Type := (exn + A)%type.

Definition is_raised {A} (r : Result A) : bool :=
  match r with inl _ => true | inr _ => false end.

(** A value read by [json.loads], or a Python literal of the same types. *)
Inductive JValue : Type :=
| JNull
| JBool (b : bool)
| JInt (n : Z)
| JFloat (x : Q)
| JString (s : string)
| JArray (l : list JValue)
| JObject (l : list (string * JValue)).

(** What lies outside the two source files: the string parsers of the
    built-ins [int], [float] and [str], and the answers of gphoto2, pyusb,
    exiftool and the clock. *)
Record FileSection : Type := { mtime : option Z }.
Record CameraFileInfo : Type := { file : option FileSection }.

(** One folder of the device: the answers of [folder_list_files] (with the
    [file_get_info] of each name) and of [folder_list_folders]. *)
Inductive Folder : Type :=
| MkFolder (files : list (string * CameraFileInfo))
           (folders : list (string * Folder)).

Record UsbDevice : Type := { iManufacturer : Z; iProduct : Z }.

Class Externals : Type := {
  (** [int(s)] and [float(s)] for a [str]; [None]: [ValueError] *)
  int_of_str : string -> option Z;
  float_of_str : string -> option Q;
  (** [str(v)] for a value that is not a [str] *)
  repr : JValue -> string;
  (** the list returned by the [k]-th call of [gp.Camera.autodetect()],
      as (name, port) pairs *)
  autodetect_at : nat -> list (string * string);
  (** the folder tree of the camera that [gp.Camera().init] opens *)
  device_root : Folder;
  (** [time.time()] *)
  now : Q;
  (** [usb.core.find(bus=, address=)] and [usb.util.get_string] *)
  usb_find : Z -> Z -> option UsbDevice;
  usb_get_string : UsbDevice -> Z -> Result (option string);
  (** [json.loads(et.execute(b"-j", path))[0]] *)
  exiftool_json : string -> Result (gmap string JValue)
}.

Section Builtins.
Context `{Externals}.

(** [int(v)] *)
Definition py_int (v : JValue) : Result Z :=
  match v with
  | JInt n => inr n
  | JBool b => inr (if b then 1 else 0)%Z
  | JFloat x => inr (Z.quot (Qnum x) (Z.pos (Qden x)))
  | JString s => match int_of_str s with Some n => inr n | None => inl ValueError end
  | JNull | JArray _ | JObject _ => inl TypeError
  end.

(** [float(v)] *)
Definition py_float (v : JValue) : Result Q :=
  match v with
  | JInt n => inr (inject_Z n)
  | JBool b => inr (if b then 1 else 0)%Q
  | JFloat x => inr x
  | JString s => match float_of_str s with Some x => inr x | None => inl ValueError end
  | JNull | JArray _ | JObject _ => inl TypeError
  end.

(** [str(v)] *)
Definition py_str (v : JValue) : string :=
  match v with
  | JString s => s
  | _ => repr v
  end.

End Builtins.

(** [d.get(k, default)] *)
Definition dict_get (d : gmap string JValue) (k : string) (dflt : JValue) : JValue :=
  match d !! k with Some v => v | None => dflt end.

(** ** Insertion-ordered dictionaries *)

(** [d[k] = v]: an existing key keeps its position and takes the new
    value, a new key goes to the end. *)
Fixpoint dict_set {V : Type} (k : string) (v : V) (d : list (string * V))
  : list (string * V) :=
  match d with
  | [] => [(k, v)]
  | (k', v') :: d' =>
      if String.eqb k k' then (k, v) :: d' else (k', v') :: dict_set k v d'
  end.

(** ** Records of the program *)

Record CameraInfo : Type := {
  index : Z;
  bus : Z;
  device : Z;
  manufacturer_id : string;
  product_id : string
}.

Record ImageMetadata : Type := {
  file_name : string;
  rating : Z;
  aperture : Q;
  lens_id : string;
  capture_time : string;
  focal_length : Q;
  exposure_time : Q;
  color_temperature : Z
}.

(** ** State and effects *)

Inductive Event : Type :=
| CameraInit
| CameraExit
| MakeDirs (destination : string)
| FileGet (folder name : string)
| Save (local_path : string)
| PrintCameraError (port : string) (e : exn)
| PrintLoadFailed (path : string) (e : exn).

Record State : Type := {
  detect_calls : nat;          (** calls of [autodetect] made so far *)
  trace : list Event;          (** effects so far, oldest first *)
  images : list ImageMetadata  (** rows of table [images] *)
}.

Definition M (A : Type) : Type := State -> Result A * State.

#[global] Instance M_ret : MRet M := fun A a s => (inr a, s).
#[global] Instance M_bind : MBind M := fun A B f m s =>
  match m s with
  | (inr a, s') => f a s'
  | (inl e, s') => (inl e, s')
  end.

Definition raise {A} (e : exn) : M A := fun s => (inl e, s).

(** [try: m  except Exception as e: h e] *)
Definition try_except {A} (m : M A) (h : exn -> M A) : M A := fun s =>
  match m s with
  | (inl e, s') => h e s'
  | r => r
  end.

(** [try: m  finally: c] *)
Definition try_finally {A} (m : M A) (c : M unit) : M A := fun s =>
  let '(r, s') := m s in
  match c s' with
  | (inr _, s'') => (r, s'')
  | (inl e, s'') => (inl e, s'')
  end.

Definition lift {A} (r : Result A) : M A := fun s => (r, s).

Definition emit (e : Event) : M unit := fun s =>
  (inr tt, {| detect_calls := detect_calls s;
              trace := trace s ++ [e];
              images := images s |}).

Definition get_images : M (list ImageMetadata) := fun s => (inr (images s), s).

Definition put_images (rows : list ImageMetadata) : M unit := fun s =>
  (inr tt, {| detect_calls := detect_calls s;
              trace := trace s;
              images := rows |}).

(** [for x in xs: acc = body acc x] *)
Fixpoint for_each {A B} (xs : list A) (acc : B) (body : B -> A -> M B) : M B :=
  match xs with
  | [] => mret acc
  | x :: xs' => acc' ← body acc x; for_each xs' acc' body
  end.

Definition run {A} (m : M A) (s : State) : Result A := fst (m s).
Definition exec {A} (m : M A) (s : State) : State := snd (m s).

#[global] Instance Result_ret : MRet Result := fun A a => inr a.
#[global] Instance Result_bind : MBind Result := fun A B f r =>
  match r with
  | inr a => f a
  | inl e => inl e
  end.

(** ** String methods used on the port of a camera *)

(** [s[n:]] *)
Fixpoint string_drop (n : nat) (s : string) : string :=
  match n, s with
  | O, _ => s
  | S n', String _ r => string_drop n' r
  | S _, EmptyString => EmptyString
  end.

(** [s.split(c)] for a one-character separator *)
Fixpoint split_on (c : ascii) (s : string) : list string :=
  match s with
  | EmptyString => [EmptyString]
  | String a r =>
      if Ascii.eqb a c then EmptyString :: split_on c r
      else match split_on c r with
           | w :: ws => String a w :: ws
           | [] => [String a EmptyString]
           end
  end.

(** [enumerate(l)] *)
Definition enumerate {A} (l : list A) : list (Z * A) :=
  combine (map Z.of_nat (seq 0 (length l))) l.

(** [x or "Unknown"] for [x] a [str] or [None] *)
Definition or_unknown (x : option string) : string :=
  match x with
  | Some (String c r) => String c r
  | Some EmptyString | None => "Unknown"
  end.

(** ** [camera_client.py]: class [CameraClient] *)

Section CameraClient.
Context `{Externals}.

(** [gp.Camera.autodetect()]: a fresh scan at every call *)
Definition autodetect : M (list (string * string)) := fun s =>
  (inr (autodetect_at (detect_calls s)),
   {| detect_calls := S (detect_calls s);
      trace := trace s;
      images := images s |}).

(** The body of the [try] in [list_connected_cameras]: [None] when
    [usb.core.find] finds nothing, so that nothing is appended. *)
Definition describe_camera (idx : Z) (port : string) : Result (option CameraInfo) :=
  match split_on ","%char (string_drop 4 port) with
  | [bus_str; dev_str] =>
      bus ← py_int (JString bus_str);
      device ← py_int (JString dev_str);
      match usb_find bus device with
      | Some dev =>
          m ← usb_get_string dev (iManufacturer dev);
          let manufacturer := or_unknown m in
          p ← usb_get_string dev (iProduct dev);
          let product := or_unknown p in
          mret (Some {| index := idx; bus := bus; device := device;
                        manufacturer_id := manufacturer;
                        product_id := product |})
      | None => mret None
      end
  | _ => inl ValueError
  end.

Definition list_connected_cameras : M (list CameraInfo) :=
  cameras ← autodetect;
  for_each (enumerate cameras) []
    (fun camera_list '(idx, (_name, port)) =>
       if negb (String.prefix "usb:" port) then mret camera_list
       else
         try_except
           (found ← lift (describe_camera idx port);
            match found with
            | Some info => mret (camera_list ++ [info])
            | None => mret camera_list
            end)
           (fun e => emit (PrintCameraError port e);; mret camera_list)).

Fixpoint _list_files_in_folder (path : string) (t : Folder) : list string :=
  match t with
  | MkFolder fs ds =>
      map (fun f => posixpath.join path (fst f)) fs ++
      flat_map (fun d => _list_files_in_folder (posixpath.join path (fst d)) (snd d)) ds
  end.

Definition list_files (camera_info : CameraInfo) : M (list string) :=
  cameras ← autodetect;
  if (index camera_info >=? Z.of_nat (length cameras))%Z
  then raise (IndexError "Camera index out of range")
  else
    emit CameraInit;;
    try_finally (mret (_list_files_in_folder "/" device_root)) (emit CameraExit).

Fixpoint _recurse_and_collect (path : string) (t : Folder)
    (images : list (string * CameraFileInfo)) : list (string * CameraFileInfo) :=
  match t with
  | MkFolder fs ds =>
      let images :=
        fold_left (fun images f =>
                     let fullpath := posixpath.join path (fst f) in
                     let info := snd f in
                     dict_set fullpath info images) fs images in
      fold_left (fun images d =>
                   _recurse_and_collect (posixpath.join path (fst d)) (snd d) images)
                ds images
  end.

Definition list_images (camera_info : CameraInfo) : M (list (string * CameraFileInfo)) :=
  cameras ← autodetect;
  if (index camera_info >=? Z.of_nat (length cameras))%Z
  then raise (IndexError "Camera index out of range")
  else
    emit CameraInit;;
    try_finally (mret (_recurse_and_collect "/" device_root [])) (emit CameraExit).

(** [hasattr(info, "file") and getattr(info.file, "mtime", 0) >= cutoff] *)
Definition is_new (cutoff : Q) (info : CameraFileInfo) : bool :=
  match file info with
  | Some f => Qle_bool cutoff (inject_Z (default 0%Z (mtime f)))
  | None => false
  end.

Definition list_new_files (camera_info : CameraInfo) (days : Z)
  : M (list (string * CameraFileInfo)) :=
  all_images ← list_images camera_info;
  let cutoff := (now - inject_Z (days * 86400))%Q in
  mret (fold_left (fun new_files item =>
                     if is_new cutoff (snd item)
                     then dict_set (fst item) (snd item) new_files
                     else new_files) all_images []).

Definition download_new_files (camera_info : CameraInfo) (days : Z)
    (destination : string) : M (list string) :=
  new_files ← list_new_files camera_info days;
  match new_files with
  | [] => mret []
  | _ :: _ =>
      emit (MakeDirs destination);;
      cameras ← autodetect;
      if (index camera_info >=? Z.of_nat (length cameras))%Z
      then raise (IndexError "Camera index out of range")
      else
        emit CameraInit;;
        try_finally
          (for_each new_files []
             (fun downloaded_paths item =>
                let '(folder, name) := posixpath.split (fst item) in
                emit (FileGet folder name);;
                let local_path := posixpath.join destination name in
                emit (Save local_path);;
                mret (downloaded_paths ++ [local_path])))
          (emit CameraExit)
  end.

End CameraClient.

(** ** [image_database.py]: classes [ImageMetadata] and [ImageDatabase] *)

(** [ThreadPoolExecutor(max_workers=n)] accepts [None] and positive [n]. *)
Definition valid_width (thread_count : option Z) : bool :=
  match thread_count with
  | None => true
  | Some n => (0 <? n)%Z
  end.

(** The result of a task as its future keeps it. *)
Definition attempt {B} (m : M B) : M (Result B) := fun s =>
  let '(r, s') := m s in (inr r, s').

(** Reading the futures in the order of submission; the first stored
    exception is raised again. *)
Fixpoint results_of {B} (futures : list (option (Result B))) : Result (list B) :=
  match futures with
  | [] => inr []
  | Some (inr b) :: fs => bs ← results_of fs; mret (b :: bs)
  | Some (inl e) :: _ => inl e
  | None :: fs => results_of fs
  end.

(** [list(executor.map(fn, xs))].  One future per position of [xs]; the
    workers run the tasks to completion in the order [sched] (a list of
    positions, which the scheduler chooses), each outcome goes to the future
    of its position, and the futures are read in the order of [xs]. *)
Definition pool_map {A B} (sched : list nat) (fn : A -> M B) (xs : list A)
  : M (list B) :=
  futures ← for_each sched (replicate (length xs) None)
    (fun futures i =>
       match xs !! i with
       | Some x => r ← attempt (fn x); mret (<[i := Some r]> futures)
       | None => mret futures
       end);
  lift (results_of futures).

Section ImageDatabase.
Context `{Externals}.

(** [ImageMetadata.load] *)
Definition load (path : string) : Result ImageMetadata :=
  metadata ← exiftool_json path;
  let file_name := posixpath.basename path in
  rating ← py_int (dict_get metadata "XMP:Rating" (JInt 0));
  aperture ← py_float (dict_get metadata "EXIF:FNumber" (JFloat 0));
  let lens_id := py_str (dict_get metadata "Composite:LensSpec" (JString "")) in
  let capture_time := py_str (dict_get metadata "EXIF:DateTimeOriginal" (JString "")) in
  focal_length ← py_float (dict_get metadata "EXIF:FocalLength" (JFloat 0));
  exposure_time ← py_float (dict_get metadata "EXIF:ExposureTime" (JFloat 0));
  color_temperature ← py_int (dict_get metadata "EXIF:WhiteBalance" (JInt 0));
  mret {| file_name := file_name; rating := rating; aperture := aperture;
          lens_id := lens_id; capture_time := capture_time;
          focal_length := focal_length; exposure_time := exposure_time;
          color_temperature := color_temperature |}.

(** [INSERT OR REPLACE INTO images ...]: [file_name] is the primary key;
    the rows with the key of the new row are deleted and the new row is
    appended. *)
Definition insert_or_replace (img : ImageMetadata) (rows : list ImageMetadata)
  : list ImageMetadata :=
  List.filter (fun row => negb (String.eqb (file_name row) (file_name img))) rows
  ++ [img].

(** [add]: the loop of [INSERT OR REPLACE] and the commit, for records
    whose integers SQLite stores. *)
Definition add (image_data : list ImageMetadata) : M unit :=
  rows ← get_images;
  put_images (fold_left (fun rows img => insert_or_replace img rows) image_data rows).

(** The [WHERE] clause of [contains]. *)
Definition where_clause (image_data row : ImageMetadata) : bool :=
  Z.eqb (rating row) (rating image_data)
  && Qeq_bool (aperture row) (aperture image_data)
  && String.eqb (lens_id row) (lens_id image_data)
  && String.eqb (capture_time row) (capture_time image_data)
  && Qeq_bool (focal_length row) (focal_length image_data)
  && Qeq_bool (exposure_time row) (exposure_time image_data)
  && Z.eqb (color_temperature row) (color_temperature image_data).

(** [SELECT 1 FROM images WHERE ...], then [fetchone() is not None], for
    a record whose integers SQLite stores *)
Definition contains (image_data : ImageMetadata) : M bool :=
  rows ← get_images;
  mret (existsb (where_clause image_data) rows).

(** [DELETE FROM images] *)
Definition clear : M unit := put_images [].

(** The inner function [process] of [rebuild]. *)
Definition process (path : string) : M (option ImageMetadata) :=
  try_except
    (md ← lift (load path); mret (Some md))
    (fun e => emit (PrintLoadFailed path e);; mret None).

(** [rebuild]; [sched] is the order in which the pool finishes the
    tasks. *)
Definition rebuild (sched : list nat) (image_paths : list string)
    (thread_count : option Z) : M unit :=
  clear;;
  (if valid_width thread_count then mret () else raise ValueError);;
  results ← pool_map sched process image_paths;
  let metadata_list := omap id results in
  add metadata_list.


End ImageDatabase.


(** ** [gui.py]: class [ImageSelectionDialog] *)

(** The widgets of tkinter are recorded by what the program decides for
    them: one [Frame] per child of the scrollable frame, with its grid cell,
    the image it stands for, whether it got a label that reacts to a click,
    and the colour of its border once one was set.  Whether a thumbnail can
    be made of a file ([rawpy], [PIL]) and the widths that tkinter reports
    are inputs, and so are the clicks of the operator. *)
Module gui.

Inductive Colour : Type := Blue | Gray.

Record Frame : Type := {
  row : Z;
  col : Z;
  path : string;
  clickable : bool;
  border : option Colour
}.

Record ImageSelectionDialog : Type := {
  images : list string;
  preselected : gset string;
  selected : gset string;
  image_refs : gset string;      (** the keys of [self.image_refs] *)
  columns : option Z;            (** [None] until the first draw *)
  frames : list Frame            (** [scrollable_frame.winfo_children()] *)
}.

(** [self.thumb_size[0]] *)
Definition thumb_width : Z := 250.

(** [__init__]; [preselected] is [None] when the argument is left out. *)
Definition __init__ (images : list string) (preselected : option (list string))
  : ImageSelectionDialog :=
  let pre : gset string :=
    match preselected with
    | Some (x :: l) => list_to_set (x :: l)
    | Some [] | None => ∅
    end in
  {| images := images; preselected := pre; selected := pre;
     image_refs := ∅; columns := None; frames := [] |}.

(** [frame.config(highlightbackground=colour)] *)
Definition config (colour : Colour) (f : Frame) : Frame :=
  {| row := row f; col := col f; path := path f; clickable := clickable f;
     border := Some colour |}.

(** [_toggle]; [frame] is the position of the frame among the children. *)
Definition _toggle (frame : nat) (path : string) (d : ImageSelectionDialog)
  : ImageSelectionDialog :=
  if decide (path ∈ selected d) then
    {| images := images d; preselected := preselected d;
       selected := selected d ∖ {[path]};
       image_refs := image_refs d; columns := columns d;
       frames := alter (config Gray) frame (frames d) |}
  else
    {| images := images d; preselected := preselected d;
       selected := {[path]} ∪ selected d;
       image_refs := image_refs d; columns := columns d;
       frames := alter (config Blue) frame (frames d) |}.

(** One turn of the loop of [_draw_images]: the frame of the image at
    [idx]; [printed] collects the paths whose thumbnail failed. *)
Definition draw_one (opens : string → bool) (new_columns : Z)
    (acc : ImageSelectionDialog * list string) (item : Z * string)
  : ImageSelectionDialog * list string :=
  let '(d, printed) := acc in
  let '(idx, p) := item in
  let r := (idx / new_columns)%Z in
  let c := (idx mod new_columns)%Z in
  if opens p then
    ({| images := images d; preselected := preselected d;
        selected := selected d;
        image_refs := {[p]} ∪ image_refs d; columns := columns d;
        frames := frames d ++
                  [ {| row := r; col := c; path := p; clickable := true;
                       border := Some (if decide (p ∈ selected d)
                                       then Blue else Gray) |} ] |},
     printed)
  else
    ({| images := images d; preselected := preselected d;
        selected := selected d;
        image_refs := image_refs d; columns := columns d;
        frames := frames d ++
                  [ {| row := r; col := c; path := p; clickable := false;
                       border := None |} ] |},
     printed ++ [p]).

(** [_draw_images(initial)], with the widths that [winfo_width] reports for
    the canvas and for the root window. *)
Definition _draw_images (canvas_width root_width : Z) (opens : string → bool)
    (initial : bool) (d : ImageSelectionDialog)
  : ImageSelectionDialog * list string :=
  let cleared :=
    {| images := images d; preselected := preselected d;
       selected := selected d; image_refs := image_refs d;
       columns := columns d; frames := [] |} in
  let canvas_width :=
    if (canvas_width <? thumb_width + 20)%Z then root_width else canvas_width in
  let new_columns := Z.max 1 (canvas_width / (thumb_width + 20)) in
  if negb initial
     && match columns d with Some c => (new_columns =? c)%Z | None => false end
  then (cleared, [])
  else
    fold_left (draw_one opens new_columns) (enumerate (images d))
      ({| images := images d; preselected := preselected d;
          selected := selected d; image_refs := image_refs d;
          columns := Some new_columns; frames := [] |}, []).

(** [_on_root_resize]: the body is [pass]. *)
Definition _on_root_resize (d : ImageSelectionDialog) : ImageSelectionDialog := d.

(** A click on the label of the child at position [i]: the handler bound in
    [_draw_images] calls [_toggle] with that frame and its path. *)
Definition click (d : ImageSelectionDialog) (i : nat) : ImageSelectionDialog :=
  match frames d !! i with
  | Some f => if clickable f then _toggle i (path f) d else d
  | None => d
  end.

(** [show]: the first draw, the clicks of the operator until Submit, and
    [list(self.selected)], whose order Python leaves open. *)
Definition show (canvas_width root_width : Z) (opens : string → bool)
    (clicks : list nat) (d : ImageSelectionDialog)
  : ImageSelectionDialog * list string * list string :=
  let '(d1, printed) := _draw_images canvas_width root_width opens true d in
  let d2 := fold_left click clicks d1 in
  (d2, printed, elements (selected d2)).

End gui.

(** ** [main.py] *)

(** The lines that [main.py] prints. *)
Inductive Line : Type :=
| Downloaded (n : nat)
| Preselected (image : string)
| NotPreselected (image : string).

(** A computation of [main.py]: one of [M] that can also print a [Line]. *)
Definition Script (A : Type) : Type :=
  State * list Line → Result A * (State * list Line).

#[global] Instance Script_ret : MRet Script := fun A a w => (inr a, w).
#[global] Instance Script_bind : MBind Script := fun A B f m w =>
  match m w with
  | (inr a, w') => f a w'
  | (inl e, w') => (inl e, w')
  end.

Definition core {A} (m : M A) : Script A := fun w =>
  let '(r, s') := m (fst w) in (r, (s', snd w)).

Definition say (l : Line) : Script unit := fun w =>
  (inr tt, (fst w, snd w ++ [l])).

Definition fail {A} (e : exn) : Script A := fun w => (inl e, w).

Fixpoint for_each_line {A B} (xs : list A) (acc : B) (body : B -> A -> Script B)
  : Script B :=
  match xs with
  | [] => mret acc
  | x :: xs' => acc' ← body acc x; for_each_line xs' acc' body
  end.

Definition DAYS_SINCE_SYNC : Z := 2.

Section Main.
Context `{Externals}.

Definition download_new_images (path : string) (days : Z) : Script (list string) :=
  cams ← core list_connected_cameras;
  camera ← match last cams with
           | Some c => mret c
           | None => fail (IndexError "list index out of range")
           end;
  download_files ← core (download_new_files camera days path);
  say (Downloaded (length download_files));;
  mret download_files.

(** The block under [if __name__ == "__main__"], for the temporary
    directory [tmpdir], up to the construction of the dialog. *)
Definition main (tmpdir : string) : Script gui.ImageSelectionDialog :=
  paths ← download_new_images tmpdir DAYS_SINCE_SYNC;
  downloaded_files ←
    for_each_line paths []
      (fun downloaded_files x =>
         match load x with
         | inr md => mret (dict_set x md downloaded_files)
         | inl e => fail e
         end);
  preselected_files ←
    for_each_line downloaded_files []
      (fun preselected_files item =>
         if (0 <? rating (snd item))%Z
         then say (Preselected (fst item));;
              mret (preselected_files ++ [fst item])
         else say (NotPreselected (fst item));;
              mret preselected_files);
  mret (gui.__init__ (map fst downloaded_files) (Some preselected_files)).

End Main.


(** * Definitions used to state the properties *)

Section SpecDefinitions.
Import posixpath.

(** A name as a file system has it: not empty, no separator. *)
Definition valid_name (n : string) : bool :=
negb (is_empty n) && negb (has_sep n).

(** [x] occurs in [l] at a position before an occurrence of [y]. *)
Definition before {A} (x y : A) (l : list A) : Prop :=
∃ l1 l2 l3, l = l1 ++ x :: l2 ++ y :: l3.

Fixpoint no_dup (l : list string) : bool :=
match l with
| [] => true
| x :: l' => negb (existsb (String.eqb x) l') && no_dup l'
end.

(** A tree as a file system presents it: every name is valid, and within
  one folder no two files and no two subfolders share a name. *)
Fixpoint well_formed (t : Folder) : bool :=
match t with
| MkFolder fs ds =>
    forallb valid_name (map fst fs) && no_dup (map fst fs)
    && forallb valid_name (map fst ds) && no_dup (map fst ds)
    && forallb (fun d => well_formed (snd d)) ds
end.

(** The file [name] with [info] lies in the folder reached from [t] through
  the subfolders [dirs]. *)
Inductive file_at : Folder → list string → string → CameraFileInfo → Prop :=
| file_here fs ds name info :
  In (name, info) fs → file_at (MkFolder fs ds) [] name info
| file_below fs ds d t dirs name info :
  In (d, t) ds → file_at t dirs name info →
  file_at (MkFolder fs ds) (d :: dirs) name info.

(** The path of a file as the specification writes it: [/IMG1.JPG],
  [/DCIM/100/IMG2.JPG]. *)
Fixpoint full_path (dirs : list string) (name : string) : string :=
match dirs with
| [] => String sep name
| d :: dirs' => String sep (d +:+ full_path dirs' name)
end.

(** The files of a tree with the folders that lead to them, files of a
  folder first, then its subfolders in turn. *)
Fixpoint listing (t : Folder) : list (list string * (string * CameraFileInfo)) :=
match t with
| MkFolder fs ds =>
    map (fun f => ([], f)) fs ++
    flat_map (fun d => map (fun x => (fst d :: fst x, snd x)) (listing (snd d))) ds
end.

(** The path the walk builds for an entry of [listing], starting from
  [path]: one [join] per subfolder, one for the file name. *)
Definition walked_path (path : string)
  (x : list string * (string * CameraFileInfo)) : string :=
join (fold_left join (fst x) path) (fst (snd x)).

(** [path] with one separator at its end. *)
Definition with_sep (path : string) : string :=
if endswith_sep path then path else path +:+ String sep "".

(** The path of a file relative to the folder the walk starts in. *)
Fixpoint rel_path (dirs : list string) (name : string) : string :=
match dirs with
| [] => name
| d :: dirs' => d +:+ String sep (rel_path dirs' name)
end.

Definition key_of (x : list string * (string * CameraFileInfo)) : list string * string :=
(fst x, fst (snd x)).

(** The modification time the device reports for a file, when it reports
    one. *)
Definition reported_mtime (info : CameraFileInfo) : option Z :=
  match file info with
  | Some f => mtime f
  | None => None
  end.

(** The file reports a modification time that is not before [cutoff]. *)
Definition recent (cutoff : Q) (info : CameraFileInfo) : bool :=
  match reported_mtime info with
  | Some t => Qle_bool cutoff (inject_Z t)
  | None => false
  end.

(** [now - days * 86400] *)
Definition cutoff_of `{Externals} (days : Z) : Q :=
  (now - inject_Z (days * 86400))%Q.

End SpecDefinitions.

(** The index of [camera_info] is out of range for the list that the
    [k]-th call of [autodetect] returns. *)
Definition stale `{Externals} (camera_info : CameraInfo) (k : nat) : bool :=
  (index camera_info >=? Z.of_nat (length (autodetect_at k)))%Z.

(** The dictionary that [list_new_files] builds from [all_images]. *)
Definition new_among `{Externals} (days : Z)
    (all_images : list (string * CameraFileInfo)) : list (string * CameraFileInfo) :=
  fold_left (fun new_files item =>
               if is_new (now - inject_Z (days * 86400))%Q (snd item)
               then dict_set (fst item) (snd item) new_files
               else new_files) all_images [].

(** The entries of [listing] as [list_images] stores them. *)
Definition discovered_of (t : Folder) : list (string * CameraFileInfo) :=
  map (fun x => (full_path (fst x) (fst (snd x)), snd (snd x))) (listing t).

(** ** Ports and handles *)

Section Handles.
Context `{Externals}.

(** The bus and address that a port of the form [usb:BUS,ADDR] names. *)
Definition port_address (port : string) : option (Z * Z) :=
  if String.prefix "usb:" port then
    match split_on ","%char (string_drop 4 port) with
    | [bus_str; dev_str] =>
        match py_int (JString bus_str), py_int (JString dev_str) with
        | inr b, inr d => Some (b, d)
        | _, _ => None
        end
    | _ => None
    end
  else None.

(** The scan [k] has, at the index of [camera_info], the device that
    [camera_info] was made for: a port with its bus and address. *)
Definition same_device (camera_info : CameraInfo) (k : nat) : bool :=
  (0 <=? index camera_info)%Z &&
  match nth_error (autodetect_at k) (Z.to_nat (index camera_info)) with
  | Some (_, port) =>
      match port_address port with
      | Some (b, d) => (b =? bus camera_info)%Z && (d =? device camera_info)%Z
      | None => false
      end
  | None => false
  end.

(** What one scanned device adds to the result of
    [list_connected_cameras], and what it makes the method print. *)
Definition entry_of (item : Z * (string * string)) : list CameraInfo :=
  let '(idx, (_, port)) := item in
  if String.prefix "usb:" port then
    match describe_camera idx port with
    | inr (Some info) => [info]
    | _ => []
    end
  else [].

Definition line_of (item : Z * (string * string)) : list Event :=
  let '(idx, (_, port)) := item in
  if String.prefix "usb:" port then
    match describe_camera idx port with
    | inl e => [PrintCameraError port e]
    | _ => []
    end
  else [].

(** The same, read off the port and the answers of pyusb alone: a port
    that does not start with [usb:] gives nothing; a port whose address
    cannot be read gives one line with [ValueError]; an address at which
    [usb.core.find] finds no device gives nothing; a device found gives a
    handle when both identity strings can be read, and one line with the
    exception when reading one of them raises. *)
Definition outcome_of (item : Z * (string * string))
  : list CameraInfo * list Event :=
  let '(idx, (_, port)) := item in
  if String.prefix "usb:" port then
    match port_address port with
    | None => ([], [PrintCameraError port ValueError])
    | Some (b, d) =>
        match usb_find b d with
        | None => ([], [])
        | Some dev =>
            match usb_get_string dev (iManufacturer dev),
                  usb_get_string dev (iProduct dev) with
            | inr m, inr p =>
                ([ {| index := idx; bus := b; device := d;
                      manufacturer_id := or_unknown m;
                      product_id := or_unknown p |} ], [])
            | inl e, _ | inr _, inl e => ([], [PrintCameraError port e])
            end
        end
    end
  else ([], []).

End Handles.

(** ** Catalog *)

(** An integer that SQLite stores: a signed integer of 64 bits. *)
Definition sqlite_integer (n : Z) : Prop := (- 2 ^ 63 <= n < 2 ^ 63)%Z.

(** A record whose two integer fields SQLite stores. *)
Definition storable (r : ImageMetadata) : Prop :=
  sqlite_integer (rating r) ∧ sqlite_integer (color_temperature r).

(** The field read from [tag] has the value [n]: the default 0 when the
    tag is absent, what [int] makes of the value of the tag otherwise. *)
Definition int_field `{Externals} (metadata : gmap string JValue)
    (tag : string) (n : Z) : Prop :=
  match metadata !! tag with
  | None => n = 0%Z
  | Some v => py_int v = inr n
  end.

(** The same for a field read with [float], default 0.0. *)
Definition float_field `{Externals} (metadata : gmap string JValue)
    (tag : string) (x : Q) : Prop :=
  match metadata !! tag with
  | None => x = 0%Q
  | Some v => py_float v = inr x
  end.

(** The same for a field read with [str], default the empty string. *)
Definition str_field `{Externals} (metadata : gmap string JValue)
    (tag : string) (t : string) : Prop :=
  match metadata !! tag with
  | None => t = ""
  | Some v => t = py_str v
  end.

(** Two records agree on the seven fields that are not the key. *)
Definition same_content (a b : ImageMetadata) : Prop :=
  rating a = rating b ∧ (aperture a == aperture b)%Q
  ∧ lens_id a = lens_id b ∧ capture_time a = capture_time b
  ∧ (focal_length a == focal_length b)%Q
  ∧ (exposure_time a == exposure_time b)%Q
  ∧ color_temperature a = color_temperature b.

(** The record [r] under the file name [n]. *)
Definition renamed (n : string) (r : ImageMetadata) : ImageMetadata :=
  {| file_name := n; rating := rating r; aperture := aperture r;
     lens_id := lens_id r; capture_time := capture_time r;
     focal_length := focal_length r; exposure_time := exposure_time r;
     color_temperature := color_temperature r |}.

(** The rows of the table after the loop of [add]. *)
Definition upsert (batch rows : list ImageMetadata) : list ImageMetadata :=
  fold_left (fun rows img => insert_or_replace img rows) batch rows.

(** The rows of a table that have the file name [n]. *)
Definition rows_named (n : string) (rows : list ImageMetadata) : list ImageMetadata :=
  List.filter (fun row => String.eqb (file_name row) n) rows.

(** The last record of a batch that has the file name [n]. *)
Fixpoint last_named (n : string) (batch : list ImageMetadata) : option ImageMetadata :=
  match batch with
  | [] => None
  | x :: b =>
      match last_named n b with
      | Some y => Some y
      | None => if String.eqb (file_name x) n then Some x else None
      end
  end.

(** Some record of [batch] has the file name of [r]. *)
Definition named_in (batch : list ImageMetadata) (r : ImageMetadata) : bool :=
  existsb (fun y => String.eqb (file_name r) (file_name y)) batch.

(** The records of a batch that no later record of the batch replaces. *)
Fixpoint keep_last (batch : list ImageMetadata) : list ImageMetadata :=
  match batch with
  | [] => []
  | x :: b => if named_in b x then keep_last b else x :: keep_last b
  end.

(** ** Rebuilding the catalog *)

(** The state [s] after the effects [events]. *)
Definition add_trace (s : State) (events : list Event) : State :=
  {| detect_calls := detect_calls s;
     trace := trace s ++ events;
     images := images s |}.




(** ** The worker pool, for tasks that return [out x] and print [log x] *)

Section PoolDefinitions.
Context {A B : Type} (out : A → B) (log : A → list Event) (xs : list A).




End PoolDefinitions.

(** ** Sessions and effects of the camera methods *)

(** The state after one more scan. *)
Definition scanned (s : State) : State :=
  {| detect_calls := S (detect_calls s);
     trace := trace s;
     images := images s |}.

(** What the loop of [download_new_files] does for one entry. *)
Definition fetch_events (destination : string) (item : string * CameraFileInfo)
  : list Event :=
  let '(folder, name) := posixpath.split (fst item) in
  [FileGet folder name; Save (posixpath.join destination name)].

(** The session of the camera along a list of events, starting open or
    closed: [init] is legal only on a closed session, [exit] and [file_get]
    only on an open one.  [None]: some event is illegal; [Some b]: all are
    legal and the session ends open ([true]) or closed ([false]). *)
Fixpoint session_after (open : bool) (events : list Event) : option bool :=
  match events with
  | [] => Some open
  | CameraInit :: rest => if open then None else session_after true rest
  | CameraExit :: rest => if open then session_after false rest else None
  | FileGet _ _ :: rest => if open then session_after true rest else None
  | _ :: rest => session_after open rest
  end.

Definition is_makedirs (e : Event) : bool :=
  match e with MakeDirs _ => true | _ => false end.

(** [d.get(k)] on an insertion-ordered dictionary. *)
Fixpoint dict_find {V : Type} (k : string) (d : list (string * V)) : option V :=
  match d with
  | [] => None
  | (k', v) :: d' => if String.eqb k k' then Some v else dict_find k d'
  end.

(** The value of the last pair of [l] with the key [k]. *)
Fixpoint last_with_key {V : Type} (k : string) (l : list (string * V)) : option V :=
  match l with
  | [] => None
  | (k', v) :: l' =>
      match last_with_key k l' with
      | Some w => Some w
      | None => if String.eqb k k' then Some v else None
      end
  end.

(** The paths and infos in the order the walk of [list_images] meets them,
    on any tree. *)
Definition walk_of (t : Folder) : list (string * CameraFileInfo) :=
  map (fun x => (walked_path "/" x, snd (snd x))) (listing t).


(** The loop [for x in l: if p x: d[key x] = val x]. *)
Definition set_each {X V : Type} (key : X → string) (val : X → V)
    (p : X → bool) (l : list X) (acc : list (string * V)) : list (string * V) :=
  fold_left (fun acc x => if p x then dict_set (key x) (val x) acc else acc) l acc.

(** ** The selection dialog *)

(** The frame that [_draw_images] makes for the image [item] when the grid
    has [c] columns and the selection is [sel]. *)
Definition frame_of (opens : string → bool) (c : Z) (sel : gset string)
    (item : Z * string) : gui.Frame :=
  {| gui.row := (fst item / c)%Z;
     gui.col := (fst item mod c)%Z;
     gui.path := snd item;
     gui.clickable := opens (snd item);
     gui.border := if opens (snd item)
                   then Some (if decide (snd item ∈ sel) then gui.Blue else gui.Gray)
                   else None |}.

(** The number of columns that [_draw_images] chooses. *)
Definition columns_for (canvas_width root_width : Z) : Z :=
  Z.max 1 ((if (canvas_width <? 270)%Z then root_width else canvas_width) / 270).

(** The border of every frame that reacts to clicks shows whether its
    image is selected. *)
Definition borders_agree (d : gui.ImageSelectionDialog) : Prop :=
  ∀ i f, gui.frames d !! i = Some f → gui.clickable f = true →
         gui.border f = Some (if decide (gui.path f ∈ gui.selected d)
                              then gui.Blue else gui.Gray).

(** The frames of [d] stand for [images], position by position, and react
    to clicks exactly when the thumbnail could be made. *)
Definition frames_match (opens : string → bool) (images : list string)
    (d : gui.ImageSelectionDialog) : Prop :=
  length (gui.frames d) = length images ∧
  ∀ i f, gui.frames d !! i = Some f →
         images !! i = Some (gui.path f) ∧ gui.clickable f = opens (gui.path f).

(** A click at position [i] reaches the image [p]. *)
Definition hits (opens : string → bool) (images : list string) (p : string)
    (i : nat) : bool :=
  match images !! i with
  | Some q => opens q && String.eqb q p
  | None => false
  end.

(** The number of clicks that reach the image [p]. *)
Definition flips (opens : string → bool) (images : list string) (p : string)
    (clicks : list nat) : nat :=
  length (List.filter (hits opens images p) clicks).


(** * A camera, an extractor and a catalog to run the definitions on *)

(** [int(s)] on a non-empty string of decimal digits. *)
Fixpoint digits (s : string) (acc : Z) : option Z :=
  match s with
  | EmptyString => Some acc
  | String c r =>
      let n := nat_of_ascii c in
      if (48 <=? n)%nat && (n <=? 57)%nat
      then digits r (10 * acc + Z.of_nat (n - 48))%Z
      else None
  end.

Definition decimal (s : string) : option Z :=
  match s with
  | EmptyString => None
  | _ => digits s 0%Z
  end.

Definition info_at (t : Z) : CameraFileInfo :=
  {| file := Some {| mtime := Some t |} |}.

(** Three files: one in the root, two in [/DCIM/100]; modified one day,
    ten days and one hour before [sample_now]. *)
Definition sample_now : Q := 2000000.

Definition sample_root : Folder :=
  MkFolder [("IMG1.JPG", info_at 1913600)]
           [("DCIM", MkFolder []
               [("100", MkFolder [("IMG2.JPG", info_at 1136000);
                                  ("IMG3.JPG", info_at 1996400)] [])])].

Definition sample_exif (path : string) : Result (gmap string JValue) :=
  if String.eqb path "/tmp/a/x.jpg"
  then inr (<["XMP:Rating" := JInt 3]> (<["EXIF:FNumber" := JFloat (28 # 10)]> ∅))
  else if String.eqb path "/tmp/b/x.jpg" then inr ∅
  else if String.eqb path "/tmp/a/y.jpg"
  then inr (<["EXIF:WhiteBalance" := JString "1"]> ∅)
  else if String.eqb path "/tmp/a/bad.jpg"
  then inr (<["XMP:Rating" := JString "five"]> ∅)
  else inl (LibraryError "exiftool").

(** The surroundings of the examples, for a given sequence of scans, a
    given folder tree and a given reader of USB string descriptors. *)
Definition surroundings (detect : nat → list (string * string)) (root : Folder)
    (get_string : UsbDevice → Z → Result (option string)) : Externals := {|
  int_of_str := decimal;
  float_of_str := fun s => inject_Z <$> decimal s;
  repr := fun _ => "?";
  autodetect_at := detect;
  device_root := root;
  now := sample_now;
  usb_find := fun bus device => Some {| iManufacturer := 1; iProduct := 2 |};
  usb_get_string := get_string;
  exiftool_json := sample_exif
|}.

Definition with_device (detect : nat → list (string * string)) (root : Folder)
  : Externals :=
  surroundings detect root
    (fun dev i => inr (if (i =? 1)%Z then Some "Nikon" else None)).

(** A camera whose string descriptors cannot be read. *)
Definition unreadable_env : Externals :=
  surroundings (fun _ => [("Nikon DSC", "usb:001,004")]) sample_root
    (fun dev i => inl (LibraryError "USBError")).

(** A scan with a camera on a serial port and one with a port that has no
    address. *)
Definition odd_ports_env : Externals :=
  with_device (fun _ => [("Old cam", "serial:/dev/ttyS0"); ("Generic", "usb:");
                         ("Nikon DSC", "usb:001,004")]) sample_root.

(** A camera that the scan lists and that pyusb does not find. *)
Definition vanished_env : Externals := {|
  int_of_str := decimal;
  float_of_str := fun s => inject_Z <$> decimal s;
  repr := fun _ => "?";
  autodetect_at := fun _ => [("Nikon DSC", "usb:001,004")];
  device_root := sample_root;
  now := sample_now;
  usb_find := fun bus device => None;
  usb_get_string := fun dev i => inr None;
  exiftool_json := sample_exif
|}.

#[local] Instance sample_env : Externals :=
  with_device (fun _ => [("Nikon DSC", "usb:001,004")]) sample_root.

(** A tree with a file whose info has no [file] section and one whose
    [file] section has no [mtime]. *)
Definition sparse_root : Folder :=
  MkFolder [("IMG1.JPG", info_at 1913600);
            ("NOTE.TXT", {| file := None |});
            ("RAW.NEF", {| file := Some {| mtime := None |} |})] [].

Definition sparse_env : Externals :=
  with_device (fun _ => [("Nikon DSC", "usb:001,004")]) sparse_root.

(** Two cameras at the first scan; both unplugged and two others plugged
    in before the second scan. *)
Definition replug_env : Externals :=
  with_device (fun k => match k with
                        | O => [("Nikon DSC", "usb:001,004"); ("Canon EOS", "usb:001,005")]
                        | S _ => [("Sony A7", "usb:001,006"); ("Fuji X", "usb:001,007")]
                        end) sample_root.

Definition canon : CameraInfo :=
  {| index := 1; bus := 1; device := 5;
     manufacturer_id := "Nikon"; product_id := "Unknown" |}.

Definition shot : ImageMetadata :=
  {| file_name := "A.JPG"; rating := 3; aperture := 28 # 10;
     lens_id := "24-70mm f/2.8"; capture_time := "2024:05:01 10:00:00";
     focal_length := 50; exposure_time := 1 # 250; color_temperature := 0 |}.

Definition start : State :=
  {| detect_calls := 0; trace := []; images := [] |}.

Definition sample_camera : CameraInfo :=
  {| index := 0; bus := 1; device := 4;
     manufacturer_id := "Nikon"; product_id := "Unknown" |}.

(** Two folders that each hold a file named [IMG1.JPG]. *)
Definition twin_root : Folder :=
  MkFolder []
    [("DCIM", MkFolder []
        [("100", MkFolder [("IMG1.JPG", info_at 1996400)] []);
         ("101", MkFolder [("IMG1.JPG", info_at 1996500)] [])])].

Definition twin_env : Externals :=
  with_device (fun _ => [("Nikon DSC", "usb:001,004")]) twin_root.

(** A device that lists the same name twice in one folder. *)
Definition twice_root : Folder :=
  MkFolder [("A.JPG", info_at 1136000); ("B.JPG", info_at 1996400);
            ("A.JPG", info_at 1996500)] [].

Definition twice_env : Externals :=
  with_device (fun _ => [("Nikon DSC", "usb:001,004")]) twice_root.


(** No camera attached. *)
Definition no_camera_env : Externals :=
  with_device (fun _ => []) sample_root.

(** The files of the sample camera as exiftool reads them after the
    download to [/tmp/dl]. *)
Definition downloaded_exif (path : string) : Result (gmap string JValue) :=
  if String.eqb path "/tmp/dl/IMG1.JPG" then inr (<["XMP:Rating" := JInt 3]> ∅)
  else if String.eqb path "/tmp/dl/IMG3.JPG" then inr ∅
  else inl (LibraryError "exiftool").

Definition main_env : Externals := {|
  int_of_str := decimal;
  float_of_str := fun s => inject_Z <$> decimal s;
  repr := fun _ => "?";
  autodetect_at := fun _ => [("Nikon DSC", "usb:001,004")];
  device_root := sample_root;
  now := sample_now;
  usb_find := fun bus device => Some {| iManufacturer := 1; iProduct := 2 |};
  usb_get_string := fun dev i => inr (if (i =? 1)%Z then Some "Nikon" else None);
  exiftool_json := downloaded_exif
|}.


(** A dialog over three images, the first preselected; the thumbnail of
    the third cannot be made. *)
Definition sample_dialog : gui.ImageSelectionDialog :=
  gui.__init__ ["a.jpg"; "b.jpg"; "c.nef"] (Some ["a.jpg"]).

Definition sample_opens (p : string) : bool := negb (String.eqb p "c.nef").


(** * Properties *)

(** ** Examples of the path functions *)

Example join_root : posixpath.join "/" "IMG1.JPG" = "/IMG1.JPG".
Proof. reflexivity. Qed.
Example join_nested : posixpath.join "/DCIM/100" "IMG2.JPG" = "/DCIM/100/IMG2.JPG".
Proof. reflexivity. Qed.
Example join_absolute : posixpath.join "/DCIM" "/x" = "/x".
Proof. reflexivity. Qed.
Example split_nested : posixpath.split "/DCIM/100/IMG2.JPG" = ("/DCIM/100", "IMG2.JPG").
Proof. reflexivity. Qed.
Example split_root : posixpath.split "/IMG1.JPG" = ("/", "IMG1.JPG").
Proof. reflexivity. Qed.
Example basename_plain : posixpath.basename "x.jpg" = "x.jpg".
Proof. reflexivity. Qed.
Example basename_dir : posixpath.basename "/tmp/a/" = "".
Proof. reflexivity. Qed.

Example full_path_root : full_path [] "IMG1.JPG" = "/IMG1.JPG".
Proof. reflexivity. Qed.
Example full_path_nested : full_path ["DCIM"; "100"] "IMG2.JPG" = "/DCIM/100/IMG2.JPG".
Proof. reflexivity. Qed.



(** ** Paths *)

Section PathFacts.
Import posixpath.

Lemma app_String a s t : String a s +:+ t = String a (s +:+ t).
Proof. reflexivity. Qed.

Lemma app_empty_r s : s +:+ "" = s.
Proof. induction s as [|a s IH]; [done|]. by rewrite app_String, IH. Qed.

Lemma app_assoc_string a b c : (a +:+ b) +:+ c = a +:+ (b +:+ c).
Proof. induction a as [|x a IH]; [done|]. by rewrite !app_String, IH. Qed.

Lemma has_sep_app a b : has_sep (a +:+ b) = has_sep a || has_sep b.
Proof.
  induction a as [|x a IH]; [done|].
  rewrite app_String. simpl. rewrite IH. by rewrite orb_assoc.
Qed.

Lemma valid_name_inv n :
  valid_name n = true → n ≠ "" ∧ has_sep n = false ∧ startswith_sep n = false.
Proof.
  unfold valid_name. destruct n as [|c n]; [done|]. simpl.
  intros Hn. apply negb_true_iff, orb_false_iff in Hn as [Hc Hn].
  by rewrite Hc, Hn.
Qed.

Lemma cut_app_sep a n :
  has_sep n = false → cut (a +:+ String sep n) = (a +:+ String sep "", n).
Proof.
  intros Hn. induction a as [|x a IH].
  - change ("" +:+ String sep n) with (String sep n). simpl. by rewrite Hn.
  - rewrite !app_String. simpl. rewrite IH.
    rewrite has_sep_app. simpl. by rewrite orb_true_r.
Qed.

Lemma cut_no_sep n : has_sep n = false → cut n = ("", n).
Proof.
  destruct n as [|c n]; [done|]. simpl.
  intros [Hc Hn]%orb_false_iff. by rewrite Hn, Hc.
Qed.

Lemma split_snd p : snd (split p) = basename p.
Proof. unfold split, basename. by destruct (cut p). Qed.

Lemma basename_app_sep a n : has_sep n = false → basename (a +:+ String sep n) = n.
Proof. intros Hn. unfold basename. by rewrite cut_app_sep. Qed.

Lemma endswith_sep_app_valid a n :
  valid_name n = true → endswith_sep (a +:+ n) = false.
Proof.
  intros (Hne & Hs & _)%valid_name_inv.
  induction a as [|x a IH].
  - change ("" +:+ n) with n. clear Hne.
    induction n as [|c n IHn]; [done|].
    simpl in Hs. apply orb_false_iff in Hs as [Hc Hs].
    simpl. destruct n; [done|]. by apply IHn.
  - rewrite app_String. simpl.
    destruct (a +:+ n) eqn:E; [|done].
    destruct a; [|done]. by destruct n.
Qed.

(** Two names without separator that are followed by a separator agree
    when the strings agree. *)
Lemma app_sep_inj a b x y :
  has_sep a = false → has_sep b = false →
  a +:+ String sep x = b +:+ String sep y → a = b ∧ x = y.
Proof.
  revert b. induction a as [|c a IH]; intros [|d b] Ha Hb E.
  - by injection E.
  - rewrite app_String in E. injection E as <- _. by simpl in Hb.
  - rewrite app_String in E. injection E as -> _. by simpl in Ha.
  - rewrite !app_String in E. injection E as -> E.
    simpl in Ha, Hb.
    apply orb_false_iff in Ha as [_ Ha]. apply orb_false_iff in Hb as [_ Hb].
    destruct (IH b Ha Hb E) as [-> ->]. done.
Qed.

End PathFacts.

(** ** The folder tree of the device *)

Lemma Folder_nested_ind (P : Folder → Prop) :
  (∀ fs ds, Forall (fun d => P (snd d)) ds → P (MkFolder fs ds)) →
  ∀ t, P t.
Proof.
  intros step. fix IH 1. intros [fs ds]. apply step.
  induction ds as [|d ds IHds]; constructor; [apply IH | exact IHds].
Qed.

Section TreeFacts.
Import posixpath.

Lemma no_dup_NoDup l : no_dup l = true → NoDup l.
Proof.
  induction l as [|x l IH]; simpl; [constructor|].
  intros [Hx Hl]%andb_true_iff. constructor; [|by apply IH].
  intros Hin%list_elem_of_In. apply negb_true_iff in Hx.
  assert (existsb (String.eqb x) l = true); [|congruence].
  apply existsb_exists. exists x. split; [done | apply String.eqb_refl].
Qed.

Lemma listing_file_at t dirs name info :
  In (dirs, (name, info)) (listing t) ↔ file_at t dirs name info.
Proof.
  revert dirs. induction t as [fs ds IH] using Folder_nested_ind. intros dirs.
  simpl. rewrite in_app_iff, in_map_iff, in_flat_map. split.
  - intros [(f & Hf & Hin) | (d & Hd & Hin)].
    + injection Hf as <- ->. by constructor.
    + apply in_map_iff in Hin as ([dirs' [n i]] & Hx & Hin).
      simpl in Hx. injection Hx as <- <- <-.
      rewrite Forall_forall in IH. destruct d as [d t].
      apply (file_below _ _ d t); [done|].
      apply (IH (d, t)); [by apply list_elem_of_In | done].
  - intros Hat. inversion Hat as [? ? ? ? Hin | ? ? d t dirs' ? ? Hin Hsub]; subst.
    + left. by exists (name, info).
    + right. exists (d, t). split; [done|].
      apply in_map_iff. exists (dirs', (name, info)). split; [done|].
      rewrite Forall_forall in IH.
      apply (IH (d, t)); [by apply list_elem_of_In | done].
Qed.

End TreeFacts.

Section WalkFacts.
Import posixpath.

Lemma list_files_listing t path :
  _list_files_in_folder path t = map (walked_path path) (listing t).
Proof.
  revert path. induction t as [fs ds IH] using Folder_nested_ind. intros path.
  simpl. rewrite map_app, map_map. f_equal.
  induction IH as [|d ds Hd _ IHds]; [done|].
  simpl. rewrite map_app, IHds, Hd, map_map. done.
Qed.

Lemma recurse_listing t path images :
  _recurse_and_collect path t images =
  fold_left (fun acc x => dict_set (walked_path path x) (snd (snd x)) acc)
            (listing t) images.
Proof.
  revert path images.
  induction t as [fs ds IH] using Folder_nested_ind. intros path images.
  simpl. rewrite fold_left_app.
  assert (∀ acc,
    fold_left (λ acc f, dict_set (join path (fst f)) (snd f) acc) fs acc =
    fold_left (λ acc x, dict_set (walked_path path x) (snd (snd x)) acc)
              (map (λ f, ([], f)) fs) acc) as ->.
  { induction fs as [|f fs IHfs]; intros acc; [done|]. simpl. by rewrite IHfs. }
  generalize (fold_left (λ acc x, dict_set (walked_path path x) (snd (snd x)) acc)
                        (map (λ f, ([], f)) fs) images).
  induction IH as [|d ds Hd _ IHds]; intros acc; [done|].
  simpl. rewrite fold_left_app, IHds, Hd. f_equal.
  generalize (listing (snd d)). intros l. revert acc.
  induction l as [|x l IHl]; intros acc; [done|]. simpl. by rewrite IHl.
Qed.

Lemma full_path_rel dirs name : full_path dirs name = String sep (rel_path dirs name).
Proof.
  induction dirs as [|d dirs IH]; [done|]. simpl. f_equal. by rewrite IH.
Qed.

Lemma join_valid path n :
  path ≠ "" → valid_name n = true → join path n = with_sep path +:+ n.
Proof.
  intros Hp (_ & _ & Hs)%valid_name_inv. unfold join, with_sep. rewrite Hs.
  destruct path as [|c path]; [done|].
  change (is_empty (String c path)) with false. cbn [orb].
  destruct (endswith_sep (String c path)); [done|].
  by rewrite app_assoc_string.
Qed.

Lemma walked_rel dirs name path :
  path ≠ "" → Forall (fun d => valid_name d = true) dirs → valid_name name = true →
  join (fold_left join dirs path) name = with_sep path +:+ rel_path dirs name.
Proof.
  intros Hp Hd Hn. revert path Hp.
  induction Hd as [|d dirs Hv _ IH]; intros path Hp.
  - by apply join_valid.
  - simpl. rewrite IH.
    + rewrite (join_valid path d Hp Hv).
      unfold with_sep at 1. rewrite endswith_sep_app_valid by done.
      by rewrite !app_assoc_string.
    + rewrite (join_valid path d Hp Hv). unfold with_sep.
      destruct path; [done|]. by destruct (endswith_sep _).
Qed.

Lemma has_sep_rel_path d dirs name : has_sep (rel_path (d :: dirs) name) = true.
Proof. simpl. rewrite has_sep_app. simpl. by rewrite orb_true_r. Qed.

Lemma rel_path_inj dirs dirs' name name' :
  Forall (fun d => valid_name d = true) dirs → valid_name name = true →
  Forall (fun d => valid_name d = true) dirs' → valid_name name' = true →
  rel_path dirs name = rel_path dirs' name' → dirs = dirs' ∧ name = name'.
Proof.
  intros Hd (_ & Hn & _)%valid_name_inv Hd' (_ & Hn' & _)%valid_name_inv.
  revert dirs' Hd'. induction Hd as [|d dirs Hv _ IH]; intros dirs' Hd' E.
  - destruct dirs' as [|d' dirs']; [done|].
    simpl rel_path at 1 in E. rewrite E, has_sep_rel_path in Hn. done.
  - destruct Hd' as [|d' dirs' Hv' Hd'].
    + simpl rel_path at 2 in E. rewrite <- E, has_sep_rel_path in Hn'. done.
    + simpl in E.
      apply valid_name_inv in Hv as (_ & Hv & _).
      apply valid_name_inv in Hv' as (_ & Hv' & _).
      apply app_sep_inj in E as [-> E]; [|done..].
      by destruct (IH dirs' Hd' E) as [-> ->].
Qed.

Lemma basename_full_path dirs name :
  valid_name name = true → basename (full_path dirs name) = name.
Proof.
  intros (_ & Hn & _)%valid_name_inv.
  assert (∃ a, full_path dirs name = a +:+ String sep name) as [a ->].
  { induction dirs as [|d dirs [a IH]]; [by exists ""|].
    exists (String sep d +:+ a). simpl. rewrite IH.
    by rewrite app_assoc_string, app_String. }
  by apply basename_app_sep.
Qed.

End WalkFacts.

Section WellFormed.
Import posixpath.

Lemma keys_unfold fs ds :
  map key_of (listing (MkFolder fs ds)) =
  map (fun f => ([], fst f)) fs ++
  flat_map (fun d => map (fun k => (fst d :: fst k, snd k))
                         (map key_of (listing (snd d)))) ds.
Proof.
  simpl. rewrite map_app, map_map. f_equal.
  induction ds as [|d ds IH]; [done|].
  simpl. rewrite map_app, !map_map, IH. done.
Qed.

Lemma well_formed_inv fs ds :
  well_formed (MkFolder fs ds) = true →
  Forall (fun n => valid_name n = true) (map fst fs) ∧ NoDup (map fst fs) ∧
  Forall (fun n => valid_name n = true) (map fst ds) ∧ NoDup (map fst ds) ∧
  Forall (fun d => well_formed (snd d) = true) ds.
Proof.
  simpl. rewrite !andb_true_iff, !forallb_forall.
  intros ((((H1 & H2) & H3) & H4) & H5).
  repeat split; try (by apply no_dup_NoDup).
  - apply Forall_forall. intros n Hn. by apply H1, list_elem_of_In.
  - apply Forall_forall. intros n Hn. by apply H3, list_elem_of_In.
  - apply Forall_forall. intros n Hn. by apply H5, list_elem_of_In.
Qed.

Lemma listing_valid t :
  well_formed t = true →
  Forall (fun k => Forall (fun d => valid_name d = true) (fst k)
                   ∧ valid_name (snd k) = true)
         (map key_of (listing t)).
Proof.
  induction t as [fs ds IH] using Folder_nested_ind.
  intros (Hfs & _ & Hds & _ & Hsub)%well_formed_inv.
  rewrite keys_unfold. apply Forall_app. split.
  - clear -Hfs. induction fs as [|f fs IHfs]; [constructor|].
    inversion Hfs; subst. constructor; [by split | by apply IHfs].
  - clear Hfs. induction ds as [|d ds IHds]; [constructor|].
    apply Forall_cons in Hds as [Hd Hds]. apply Forall_cons in Hsub as [Hwf Hsub].
    apply Forall_cons in IH as [IHd IH].
    simpl. apply Forall_app. split; [|by apply IHds].
    apply Forall_forall. intros k (k' & <- & Hk')%list_elem_of_In%in_map_iff.
    specialize (IHd Hwf). rewrite Forall_forall in IHd.
    destruct (IHd k') as [Hv1 Hv2]; [by apply list_elem_of_In|].
    simpl. split; [by constructor | done].
Qed.

Lemma listing_keys_NoDup t :
  well_formed t = true → NoDup (map key_of (listing t)).
Proof.
  induction t as [fs ds IH] using Folder_nested_ind.
  intros (_ & Hfs & _ & Hds & Hsub)%well_formed_inv.
  rewrite keys_unfold. apply NoDup_app. split; [|split].
  - clear -Hfs. induction fs as [|f fs IHfs]; [constructor|].
    inversion Hfs as [|? ? Hn Hr]; subst. simpl. constructor; [|by apply IHfs].
    intros (f' & E & Hin)%list_elem_of_In%in_map_iff. apply Hn.
    injection E as E. rewrite <- E. apply list_elem_of_In, in_map, Hin.
  - intros k (f & <- & _)%list_elem_of_In%in_map_iff
             (d & _ & (k' & E & _)%in_map_iff)%list_elem_of_In%in_flat_map.
    done.
  - clear Hfs. induction ds as [|d ds IHds]; [constructor|].
    simpl in Hds. apply NoDup_cons in Hds as [Hn Hr].
    apply Forall_cons in Hsub as [Hwf Hsub]. apply Forall_cons in IH as [IHd IH].
    simpl. apply NoDup_app. split; [|split].
    + apply NoDup_fmap_2_strong; [|by auto].
      intros [a b] [a' b'] _ _ E. simpl in E. by simplify_eq.
    + intros k (k1 & <- & _)%list_elem_of_In%in_map_iff
               (d' & Hd' & (k2 & E & _)%in_map_iff)%list_elem_of_In%in_flat_map.
      apply Hn. injection E as E _. rewrite <- E.
      apply list_elem_of_In, in_map, Hd'.
    + by apply IHds.
Qed.

End WellFormed.

Section Discovery.
Import posixpath.

Lemma walked_full t x :
  well_formed t = true → In x (listing t) →
  walked_path "/" x = full_path (fst x) (fst (snd x)).
Proof.
  intros Hwf Hx. pose proof (listing_valid t Hwf) as Hv.
  rewrite Forall_forall in Hv.
  destruct (Hv (key_of x)) as [Hd Hn].
  { apply list_elem_of_In, in_map, Hx. }
  unfold walked_path. rewrite walked_rel by done.
  by rewrite full_path_rel.
Qed.

Lemma listing_paths t :
  well_formed t = true →
  map (walked_path "/") (listing t) =
  map (fun x => full_path (fst x) (fst (snd x))) (listing t).
Proof. intros Hwf. apply map_ext_in. intros x Hx. by apply (walked_full t). Qed.

Lemma full_path_inj dirs dirs' name name' :
  Forall (fun d => valid_name d = true) dirs → valid_name name = true →
  Forall (fun d => valid_name d = true) dirs' → valid_name name' = true →
  full_path dirs name = full_path dirs' name' → dirs = dirs' ∧ name = name'.
Proof.
  intros Hd Hn Hd' Hn'. rewrite !full_path_rel. intros E. injection E as E.
  by apply rel_path_inj.
Qed.

Lemma listing_paths_NoDup t :
  well_formed t = true → NoDup (map (walked_path "/") (listing t)).
Proof.
  intros Hwf. rewrite listing_paths by done.
  rewrite <- (map_map key_of (fun k => full_path (fst k) (snd k))).
  pose proof (listing_valid t Hwf) as Hv. rewrite Forall_forall in Hv.
  apply NoDup_fmap_2_strong; [|by apply listing_keys_NoDup].
  intros [a b] [a' b'] [Ha Hb]%Hv [Ha' Hb']%Hv E. simpl in *.
  by destruct (full_path_inj _ _ _ _ Ha Hb Ha' Hb' E) as [-> ->].
Qed.

Lemma NoDup_fst_functional {A B} (l : list (A * B)) a b b' :
  NoDup (map fst l) → In (a, b) l → In (a, b') l → b = b'.
Proof.
  induction l as [|[x y] l IH]; [done|]. simpl.
  intros [Hx Hl]%NoDup_cons [E1 | H1] [E2 | H2].
  - congruence.
  - injection E1 as -> ->. destruct Hx.
    apply list_elem_of_In, in_map_iff. by exists (a, b').
  - injection E2 as -> ->. destruct Hx.
    apply list_elem_of_In, in_map_iff. by exists (a, b).
  - by apply IH.
Qed.

Lemma before_map {A B} (f : A → B) x y l :
  before x y l → before (f x) (f y) (map f l).
Proof.
  intros (l1 & l2 & l3 & ->).
  exists (map f l1), (map f l2), (map f l3).
  by rewrite map_app, (map_cons f x), map_app.
Qed.

Lemma before_within {A} (x y : A) a l b :
  before x y l → before x y (a ++ l ++ b).
Proof.
  intros (l1 & l2 & l3 & ->). exists (a ++ l1), l2, (l3 ++ b).
  rewrite <- !app_assoc. simpl. by rewrite <- !app_assoc.
Qed.

Lemma in_flat_map_split {A B} (f : A → list B) a l :
  In a l → ∃ l1 l2, flat_map f l = l1 ++ f a ++ l2.
Proof.
  intros (l1 & l2 & ->)%in_split.
  exists (flat_map f l1), (flat_map f l2).
  rewrite flat_map_app. reflexivity.
Qed.

(** Files of a folder come before the files below its subfolders. *)
Lemma listing_files_first t dirs name info d dirs' name' info' :
  well_formed t = true →
  file_at t dirs name info →
  file_at t (dirs ++ d :: dirs') name' info' →
  before (dirs, (name, info)) (dirs ++ d :: dirs', (name', info')) (listing t).
Proof.
  revert t. induction dirs as [|d0 dirs IH]; intros t Hwf H1 H2.
  - inversion H1 as [fs ds ? ? Hin |]; subst.
    apply listing_file_at in H2. simpl in H2.
    apply in_app_iff in H2 as [H2 | H2].
    { apply in_map_iff in H2 as (f & E & _). done. }
    apply (in_map (fun f => (@nil string, f))) in Hin.
    apply in_split in Hin as (l1 & l2 & E1).
    apply in_split in H2 as (l3 & l4 & E2).
    exists l1, (l2 ++ l3), l4. simpl. rewrite E1, E2.
    by rewrite <- !app_assoc.
  - inversion H1 as [| fs ds ? t1 ? ? ? Hin1 Hat1]; subst.
    inversion H2 as [| ? ? ? t2 ? ? ? Hin2 Hat2]; subst.
    destruct (well_formed_inv _ _ Hwf) as (_ & _ & _ & Hnd & Hsub).
    assert (t2 = t1) as -> by (eapply NoDup_fst_functional; eauto).
    rewrite Forall_forall in Hsub.
    assert (Hwf1 : well_formed t1 = true).
    { apply (Hsub (d0, t1)). by apply list_elem_of_In. }
    specialize (IH t1 Hwf1 Hat1 Hat2).
    apply (before_map (fun x => (d0 :: fst x, snd x))) in IH. simpl in IH.
    simpl.
    destruct (in_flat_map_split
                (fun d => map (fun x => (fst d :: fst x, snd x)) (listing (snd d)))
                _ _ Hin1) as (l1 & l2 & ->).
    rewrite app_assoc. apply (before_within _ _ (_ ++ l1)). exact IH.
Qed.

End Discovery.

(** ** Insertion-ordered dictionaries *)

Section DictFacts.
Context {X V : Type} (key : X → string) (val : X → V).

Lemma dict_set_fresh (k : string) (v : V) (d : list (string * V)) :
  k ∉ map fst d → dict_set k v d = d ++ [(k, v)].
Proof.
  induction d as [|[k' v'] d IH]; [done|]. simpl.
  intros [Hk Hd]%not_elem_of_cons.
  destruct (String.eqb_spec k k') as [E|_]; [done|]. by rewrite IH.
Qed.

(** Setting keys that are new and pairwise distinct appends the entries
    in the order they are set. *)
Lemma fold_dict_set_filter (p : X → bool) (l : list X) (acc : list (string * V)) :
  NoDup (map fst acc ++ map key l) →
  fold_left (fun acc x => if p x then dict_set (key x) (val x) acc else acc) l acc
  = acc ++ map (fun x => (key x, val x)) (List.filter p l).
Proof.
  revert acc. induction l as [|x l IH]; intros acc Hnd.
  - simpl. by rewrite app_nil_r.
  - simpl in *. apply NoDup_app in Hnd as (Hacc & Hdisj & [Hx Hl]%NoDup_cons).
    destruct (p x).
    + rewrite dict_set_fresh.
      2:{ intros Hin. apply (Hdisj _ Hin). by left. }
      rewrite IH.
      * simpl. by rewrite <- app_assoc.
      * rewrite map_app. simpl. rewrite <- app_assoc. simpl.
        apply NoDup_app. split; [done|]. split; [|by constructor].
        intros k Hk. by apply Hdisj.
    + apply IH. apply NoDup_app. split; [done|]. split; [|done].
      intros k Hk Hin. apply (Hdisj _ Hk). by right.
Qed.

Lemma filter_all (l : list X) : List.filter (fun _ => true) l = l.
Proof. induction l as [|x l IH]; [done|]. simpl. by rewrite IH. Qed.

Lemma fold_dict_set_all (l : list X) :
  NoDup (map key l) →
  fold_left (fun acc x => dict_set (key x) (val x) acc) l []
  = map (fun x => (key x, val x)) l.
Proof.
  intros Hnd.
  pose proof (fold_dict_set_filter (fun _ => true) l [] Hnd) as E.
  simpl in E. by rewrite filter_all in E.
Qed.

End DictFacts.

(** ** Running the methods of [CameraClient] *)

Section CameraRuns.
Context `{Externals}.

Lemma list_files_run camera_info s :
  run (list_files camera_info) s =
  if stale camera_info (detect_calls s)
  then inl (IndexError "Camera index out of range")
  else inr (_list_files_in_folder "/" device_root).
Proof.
  unfold run, list_files, stale, mbind, M_bind, autodetect. simpl.
  by destruct (_ >=? _)%Z.
Qed.

Lemma list_images_run camera_info s :
  run (list_images camera_info) s =
  if stale camera_info (detect_calls s)
  then inl (IndexError "Camera index out of range")
  else inr (_recurse_and_collect "/" device_root []).
Proof.
  unfold run, list_images, stale, mbind, M_bind, autodetect. simpl.
  by destruct (_ >=? _)%Z.
Qed.

Lemma collect_listing t :
  well_formed t = true →
  _recurse_and_collect "/" t [] = discovered_of t.
Proof.
  intros Hwf. rewrite recurse_listing.
  rewrite (fold_dict_set_all (walked_path "/") (fun x => snd (snd x))).
  - apply map_ext_in. intros x Hx. by rewrite (walked_full t).
  - by apply listing_paths_NoDup.
Qed.

End CameraRuns.

(** ** Recursive file discovery *)

(** C8.  On a well-formed folder tree and with an index that is in range,
    [list_files] returns the paths of exactly the files reachable by
    recursive descent, each path being the one the specification writes
    ([/IMG1.JPG], [/DCIM/100/IMG2.JPG]); no path occurs twice; the files of a
    folder come before every file below one of its subfolders; and
    [list_images] has the same paths in the same order as its keys, each
    with the info of its file. *)
Theorem discovery_exhaustive_once_files_first `{Externals}
    (camera_info : CameraInfo) (s : State) :
  well_formed device_root = true →
  stale camera_info (detect_calls s) = false →
  ∃ paths images,
    run (list_files camera_info) s = inr paths ∧
    run (list_images camera_info) s = inr images ∧
    (∀ p, In p paths ↔
          ∃ dirs name info, file_at device_root dirs name info
                            ∧ p = full_path dirs name) ∧
    NoDup paths ∧
    (∀ dirs name info d dirs' name' info',
        file_at device_root dirs name info →
        file_at device_root (dirs ++ d :: dirs') name' info' →
        before (full_path dirs name) (full_path (dirs ++ d :: dirs') name') paths) ∧
    map fst images = paths ∧
    (∀ dirs name info, file_at device_root dirs name info →
                       In (full_path dirs name, info) images).
Proof.
  intros Hwf Hidx.
  exists (_list_files_in_folder "/" device_root), (_recurse_and_collect "/" device_root []).
  rewrite list_files_run, list_images_run, Hidx.
  split; [done|]. split; [done|].
  rewrite list_files_listing, collect_listing by done. unfold discovered_of.
  split; [|split; [|split; [|split]]].
  - intros p. rewrite listing_paths by done. rewrite in_map_iff. split.
    + intros ([dirs [name info]] & <- & Hin). exists dirs, name, info.
      split; [by apply listing_file_at | done].
    + intros (dirs & name & info & Hat & ->).
      exists (dirs, (name, info)). split; [done | by apply listing_file_at].
  - by apply listing_paths_NoDup.
  - intros dirs name info d dirs' name' info' H1 H2.
    rewrite listing_paths by done.
    apply (before_map (fun x => full_path (fst x) (fst (snd x)))
                      (dirs, (name, info)) (dirs ++ d :: dirs', (name', info'))).
    by apply listing_files_first.
  - rewrite map_map. simpl. symmetry. by apply listing_paths.
  - intros dirs name info Hat. apply in_map_iff.
    exists (dirs, (name, info)). split; [done | by apply listing_file_at].
Qed.

Lemma discovery_witness :
  well_formed (@device_root sample_env) = true ∧
  @stale sample_env sample_camera (detect_calls start) = false ∧
  ∃ paths images,
    run (list_files sample_camera) start = inr paths ∧
    run (list_images sample_camera) start = inr images ∧
    (∀ p, In p paths ↔
          ∃ dirs name info, file_at sample_root dirs name info
                            ∧ p = full_path dirs name) ∧
    NoDup paths ∧
    (∀ dirs name info d dirs' name' info',
        file_at sample_root dirs name info →
        file_at sample_root (dirs ++ d :: dirs') name' info' →
        before (full_path dirs name) (full_path (dirs ++ d :: dirs') name') paths) ∧
    map fst images = paths ∧
    (∀ dirs name info, file_at sample_root dirs name info →
                       In (full_path dirs name, info) images).
Proof.
  split; [reflexivity|]. split; [reflexivity|].
  apply (@discovery_exhaustive_once_files_first sample_env sample_camera start);
    reflexivity.
Defined.

Example list_files_sample :
  run (list_files sample_camera) start
  = inr ["/IMG1.JPG"; "/DCIM/100/IMG2.JPG"; "/DCIM/100/IMG3.JPG"].
Proof. reflexivity. Qed.

(** ** Recency-filtered download *)

Section Download.
Context `{Externals}.

Lemma list_images_step camera_info s :
  list_images camera_info s =
  if stale camera_info (detect_calls s)
  then (inl (IndexError "Camera index out of range"),
        {| detect_calls := S (detect_calls s); trace := trace s;
           images := images s |})
  else (inr (_recurse_and_collect "/" device_root []),
        {| detect_calls := S (detect_calls s);
           trace := (trace s ++ [CameraInit]) ++ [CameraExit];
           images := images s |}).
Proof.
  unfold list_images, stale, mbind, M_bind, autodetect. simpl.
  by destruct (_ >=? _)%Z.
Qed.

Lemma list_new_files_step camera_info days s :
  list_new_files camera_info days s =
  match list_images camera_info s with
  | (inr all_images, s') => (inr (new_among days all_images), s')
  | (inl e, s') => (inl e, s')
  end.
Proof.
  unfold list_new_files, mbind, M_bind.
  by destruct (list_images camera_info s) as [[e|all_images] s'].
Qed.

Lemma download_loop destination (l : list (string * CameraFileInfo)) acc s :
  fst (for_each l acc
         (fun downloaded_paths item =>
            let '(folder, name) := posixpath.split (fst item) in
            emit (FileGet folder name);;
            let local_path := posixpath.join destination name in
            emit (Save local_path);;
            mret (downloaded_paths ++ [local_path])) s)
  = inr (acc ++ map (fun item =>
                       posixpath.join destination (posixpath.basename (fst item))) l).
Proof.
  revert acc s. induction l as [|item l IH]; intros acc s.
  - simpl. by rewrite app_nil_r.
  - simpl. unfold mbind at 1, M_bind at 1.
    rewrite <- (split_snd (fst item)).
    destruct (posixpath.split (fst item)) as [folder name]. simpl.
    rewrite IH. by rewrite <- app_assoc.
Qed.

Lemma download_new_files_cases camera_info days destination s :
  run (download_new_files camera_info days destination) s =
  if stale camera_info (detect_calls s)
  then inl (IndexError "Camera index out of range")
  else match new_among days (_recurse_and_collect "/" device_root []) with
       | [] => inr []
       | item :: new_files =>
           if stale camera_info (S (detect_calls s))
           then inl (IndexError "Camera index out of range")
           else inr (map (fun item => posixpath.join destination
                                        (posixpath.basename (fst item)))
                         (item :: new_files))
       end.
Proof.
  unfold run, download_new_files.
  unfold mbind at 1, M_bind at 1.
  rewrite list_new_files_step, list_images_step.
  destruct (stale camera_info (detect_calls s)); [done|].
  destruct (new_among _ _) as [|item new_files]; [done|].
  cbv beta iota. generalize (item :: new_files). intros l.
  unfold mbind at 1, M_bind at 1. simpl.
  unfold mbind at 1, M_bind at 1. unfold autodetect. simpl.
  fold (stale camera_info (S (detect_calls s))).
  destruct (stale camera_info (S (detect_calls s))); [done|].
  unfold mbind at 1, M_bind at 1. simpl.
  unfold try_finally.
  match goal with
  | |- context [for_each ?l ?acc ?body ?st] =>
      pose proof (download_loop destination l acc st) as E;
      destruct (for_each l acc body st) as [r st']
  end.
  simpl in E. subst r. reflexivity.
Qed.

Lemma download_new_files_run camera_info days destination s :
  stale camera_info (detect_calls s) = false →
  stale camera_info (S (detect_calls s)) = false →
  run (download_new_files camera_info days destination) s =
  inr (map (fun item => posixpath.join destination (posixpath.basename (fst item)))
           (new_among days (_recurse_and_collect "/" device_root []))).
Proof.
  intros H1 H2. rewrite download_new_files_cases, H1, H2.
  by destruct (new_among _ _).
Qed.

End Download.

Section Recency.
Context `{Externals}.

Lemma map_pair_id {A B} (l : list (A * B)) : map (fun x => (fst x, snd x)) l = l.
Proof. induction l as [|[a b] l IH]; [done|]. simpl. by rewrite IH. Qed.

Lemma discovered_keys t :
  well_formed t = true → NoDup (map fst (discovered_of t)).
Proof.
  intros Hwf. unfold discovered_of. rewrite map_map. simpl.
  rewrite <- listing_paths by done. by apply listing_paths_NoDup.
Qed.

Lemma new_among_filter days t :
  well_formed t = true →
  new_among days (discovered_of t) =
  List.filter (fun item => is_new (cutoff_of days) (snd item)) (discovered_of t).
Proof.
  intros Hwf. unfold new_among.
  pose proof (fold_dict_set_filter fst snd
                (fun item => is_new (cutoff_of days) (snd item))
                (discovered_of t) [] (discovered_keys t Hwf)) as E.
  cbv beta in E. unfold cutoff_of in *. rewrite E. simpl. apply map_pair_id.
Qed.

Lemma discovered_inv t item :
  well_formed t = true → In item (discovered_of t) →
  ∃ dirs name, file_at t dirs name (snd item)
               ∧ fst item = full_path dirs name
               ∧ Forall (fun d => valid_name d = true) dirs
               ∧ valid_name name = true.
Proof.
  intros Hwf ([dirs [name info]] & <- & Hin)%in_map_iff.
  exists dirs, name. simpl.
  pose proof (listing_valid t Hwf) as Hv. rewrite Forall_forall in Hv.
  destruct (Hv (dirs, name)) as [Hd Hn].
  { apply list_elem_of_In, in_map_iff. by exists (dirs, (name, info)). }
  split; [by apply listing_file_at | done].
Qed.

Lemma is_new_recent cutoff info :
  is_Some (reported_mtime info) → is_new cutoff info = recent cutoff info.
Proof.
  unfold is_new, recent, reported_mtime. destruct (file info) as [f|]; [|done].
  by intros [t ->].
Qed.

Lemma list_new_files_run camera_info days s :
  stale camera_info (detect_calls s) = false →
  run (list_new_files camera_info days) s =
  inr (new_among days (_recurse_and_collect "/" device_root [])).
Proof.
  intros H1. unfold run. by rewrite list_new_files_step, list_images_step, H1.
Qed.

End Recency.

(** C1.  On a well-formed tree whose files all report a modification time,
    with the index in range at both scans and a destination that is not
    empty, [download_new_files] returns, for the files [list_images]
    discovered and in the order it discovered them, the local path
    destination/<base name> of exactly those whose reported time is at
    least [now - days * 86400]. *)
Theorem sync_recent_exact `{Externals}
    (camera_info : CameraInfo) (days : Z) (destination : string) (s : State) :
  well_formed device_root = true →
  (∀ dirs name info, file_at device_root dirs name info →
                     is_Some (reported_mtime info)) →
  stale camera_info (detect_calls s) = false →
  stale camera_info (S (detect_calls s)) = false →
  destination ≠ "" →
  ∃ discovered,
    run (list_images camera_info) s = inr discovered ∧
    run (download_new_files camera_info days destination) s =
    inr (map (fun item => with_sep destination +:+ posixpath.basename (fst item))
             (List.filter (fun item => recent (cutoff_of days) (snd item))
                          discovered)).
Proof.
  intros Hwf Hrep H1 H2 Hdest. exists (discovered_of device_root).
  rewrite list_images_run, H1, download_new_files_run by done.
  rewrite collect_listing by done. split; [done|]. f_equal.
  rewrite new_among_filter by done.
  rewrite (filter_ext_in (fun item => is_new (cutoff_of days) (snd item))
                         (fun item => recent (cutoff_of days) (snd item))).
  - apply map_ext_in. intros item [Hin _]%filter_In.
    destruct (discovered_inv _ _ Hwf Hin) as (dirs & name & _ & -> & _ & Hn).
    rewrite basename_full_path by done. by apply join_valid.
  - intros item Hin.
    destruct (discovered_inv _ _ Hwf Hin) as (dirs & name & Hat & _).
    apply is_new_recent. by eapply Hrep.
Qed.

Lemma sample_files_report dirs name info :
  file_at sample_root dirs name info → is_Some (reported_mtime info).
Proof.
  intros Hat%listing_file_at. simpl in Hat.
  destruct Hat as [E | [E | [E | []]]]; injection E as _ _ <-; by eexists.
Qed.

Lemma sync_recent_witness :
  well_formed (@device_root sample_env) = true ∧
  (∀ dirs name info, file_at (@device_root sample_env) dirs name info →
                     is_Some (reported_mtime info)) ∧
  @stale sample_env sample_camera (detect_calls start) = false ∧
  @stale sample_env sample_camera (S (detect_calls start)) = false ∧
  "/tmp/dl" ≠ "" ∧
  ∃ discovered,
    run (list_images sample_camera) start = inr discovered ∧
    run (download_new_files sample_camera 2 "/tmp/dl") start =
    inr (map (fun item => with_sep "/tmp/dl" +:+ posixpath.basename (fst item))
             (List.filter (fun item => recent (cutoff_of 2) (snd item))
                          discovered)).
Proof.
  split; [reflexivity|]. split; [exact sample_files_report|].
  split; [reflexivity|]. split; [reflexivity|]. split; [discriminate|].
  apply (@sync_recent_exact sample_env sample_camera 2 "/tmp/dl" start);
    [reflexivity | exact sample_files_report | reflexivity | reflexivity
    | discriminate].
Defined.

(** The end-to-end case of the specification: files modified one day, ten
    days and one hour ago; a window of two days keeps the first and the
    third, in discovery order. *)
Example download_sample :
  run (download_new_files sample_camera 2 "/tmp/dl") start
  = inr ["/tmp/dl/IMG1.JPG"; "/tmp/dl/IMG3.JPG"].
Proof. reflexivity. Qed.

Example download_sample_trace :
  trace (exec (download_new_files sample_camera 2 "/tmp/dl") start)
  = [CameraInit; CameraExit; MakeDirs "/tmp/dl"; CameraInit;
     FileGet "/" "IMG1.JPG"; Save "/tmp/dl/IMG1.JPG";
     FileGet "/DCIM/100" "IMG3.JPG"; Save "/tmp/dl/IMG3.JPG"; CameraExit].
Proof. reflexivity. Qed.

(** ** Files without a modification time *)







Example sparse_download :
  run (@download_new_files sparse_env sample_camera 2 "/tmp/dl") start
  = inr ["/tmp/dl/IMG1.JPG"].
Proof. reflexivity. Qed.

(** With a window so long that the cutoff is not positive, the file
    without [mtime] is kept and the file without [file] section is not. *)
Example sparse_download_long_window :
  run (@download_new_files sparse_env sample_camera 100 "/tmp/dl") start
  = inr ["/tmp/dl/IMG1.JPG"; "/tmp/dl/RAW.NEF"].
Proof. reflexivity. Qed.

(** ** Stale handles *)

Example replug_first_scan :
  run (@list_connected_cameras replug_env) start
  = inr [ {| index := 0; bus := 1; device := 4;
             manufacturer_id := "Nikon"; product_id := "Unknown" |}; canon ].
Proof. reflexivity. Qed.

Example replug_second_scan :
  run (@list_files replug_env canon)
      (exec (@list_connected_cameras replug_env) start)
  = inr ["/IMG1.JPG"; "/DCIM/100/IMG2.JPG"; "/DCIM/100/IMG3.JPG"].
Proof. reflexivity. Qed.




(** The handle of the second camera is out of range when one camera is
    attached. *)
Example index_error_sample :
  run (list_files canon) start = inl (IndexError "Camera index out of range")
  ∧ run (download_new_files canon 2 "/tmp/dl") start
    = inl (IndexError "Camera index out of range").
Proof. split; reflexivity. Qed.

(** ** Enumeration of the connected cameras *)

Section Enumeration.
Context `{Externals}.

Lemma cameras_loop (l : list (Z * (string * string))) (acc : list CameraInfo) s :
  for_each l acc
    (fun camera_list '(idx, (_name, port)) =>
       if negb (String.prefix "usb:" port) then mret camera_list
       else
         try_except
           (found ← lift (describe_camera idx port);
            match found with
            | Some info => mret (camera_list ++ [info])
            | None => mret camera_list
            end)
           (fun e => emit (PrintCameraError port e);; mret camera_list)) s
  = (inr (acc ++ flat_map entry_of l),
     {| detect_calls := detect_calls s;
        trace := trace s ++ flat_map line_of l;
        images := images s |}).
Proof.
  match goal with |- for_each _ _ ?b _ = _ => set (body := b) end.
  revert acc s. induction l as [|[idx [name port]] l IH]; intros acc s.
  - simpl. rewrite !app_nil_r. by destruct s.
  - cbn [for_each]. unfold mbind at 1, M_bind at 1.
    unfold body at 1. cbv beta iota.
    cbn [flat_map entry_of line_of].
    destruct (String.prefix "usb:" port); cbn [negb].
    + unfold try_except, lift. unfold mbind at 1, M_bind at 1.
      destruct (describe_camera idx port) as [e | [info|]];
        unfold mbind, M_bind, mret, M_ret, emit; cbn -[for_each];
        rewrite IH; cbn; by rewrite <- ?app_assoc.
    + unfold mret, M_ret. rewrite IH. done.
Qed.

Lemma list_connected_cameras_step s :
  list_connected_cameras s =
  (inr (flat_map entry_of (enumerate (autodetect_at (detect_calls s)))),
   {| detect_calls := S (detect_calls s);
      trace := trace s ++ flat_map line_of (enumerate (autodetect_at (detect_calls s)));
      images := images s |}).
Proof.
  unfold list_connected_cameras. unfold mbind at 1, M_bind at 1.
  unfold autodetect. cbv beta iota. by rewrite cameras_loop.
Qed.

Lemma describe_camera_found idx port b d dev :
  String.prefix "usb:" port = true →
  port_address port = Some (b, d) → usb_find b d = Some dev →
  describe_camera idx port =
  (m ← usb_get_string dev (iManufacturer dev);
   p ← usb_get_string dev (iProduct dev);
   mret (Some {| index := idx; bus := b; device := d;
                 manufacturer_id := or_unknown m;
                 product_id := or_unknown p |})).
Proof.
  unfold port_address, describe_camera. intros -> Haddr Hfind.
  destruct (split_on "," (string_drop 4 port)) as [|bs [|ds [|? ?]]]; try done.
  unfold mbind at 1, Result_bind at 1.
  destruct (py_int (JString bs)) as [?|b']; [done|].
  unfold mbind at 1, Result_bind at 1.
  destruct (py_int (JString ds)) as [?|d']; [done|].
  injection Haddr as -> ->. by rewrite Hfind.
Qed.

Lemma describe_camera_inv idx port info :
  String.prefix "usb:" port = true →
  describe_camera idx port = inr (Some info) →
  index info = idx ∧ port_address port = Some (bus info, device info).
Proof.
  unfold describe_camera, port_address. intros ->.
  destruct (split_on "," (string_drop 4 port)) as [|bs [|ds [|? ?]]]; try done.
  unfold mbind at 1, Result_bind at 1.
  destruct (py_int (JString bs)) as [?|b]; [done|].
  unfold mbind at 1, Result_bind at 1.
  destruct (py_int (JString ds)) as [?|d]; [done|].
  destruct (usb_find b d) as [dev|]; [|done].
  unfold mbind at 1, Result_bind at 1.
  destruct (usb_get_string dev (iManufacturer dev)) as [?|m]; [done|].
  unfold mbind at 1, Result_bind at 1.
  destruct (usb_get_string dev (iProduct dev)) as [?|p]; [done|].
  intros E. injection E as <-. done.
Qed.

Lemma numbered_in {A} (k : nat) (l : list A) idx x :
  In (idx, x) (combine (map Z.of_nat (seq k (length l))) l) →
  ∃ i, idx = Z.of_nat (k + i) ∧ nth_error l i = Some x.
Proof.
  revert k. induction l as [|y l IH]; intros k; [done|].
  cbn. intros [E | Hin].
  - injection E as <- <-. exists 0%nat. split; [f_equal; lia | done].
  - destruct (IH (S k) Hin) as (i & -> & Hi). exists (S i).
    split; [f_equal; lia | done].
Qed.

Lemma numbered_unique {A} (k : nat) (l : list A) idx (x y : A) :
  In (idx, x) (combine (map Z.of_nat (seq k (length l))) l) →
  In (idx, y) (combine (map Z.of_nat (seq k (length l))) l) → x = y.
Proof.
  intros (i & Hi & Hx)%numbered_in (j & Hj & Hy)%numbered_in.
  assert (i = j) as -> by lia. congruence.
Qed.

(** [describe_camera] by the address of the port and the answers of
    pyusb. *)
Lemma describe_camera_cases idx port :
  String.prefix "usb:" port = true →
  describe_camera idx port =
  match port_address port with
  | None => inl ValueError
  | Some (b, d) =>
      match usb_find b d with
      | None => inr None
      | Some dev =>
          m ← usb_get_string dev (iManufacturer dev);
          p ← usb_get_string dev (iProduct dev);
          mret (Some {| index := idx; bus := b; device := d;
                        manufacturer_id := or_unknown m;
                        product_id := or_unknown p |})
      end
  end.
Proof.
  unfold port_address, describe_camera. intros ->.
  destruct (split_on "," (string_drop 4 port)) as [|bs [|ds [|? ?]]]; try done.
  unfold py_int.
  destruct (int_of_str bs) as [b|]; [|done].
  by destruct (int_of_str ds) as [d|].
Qed.

Lemma outcome_entry (item : Z * (string * string)) :
  entry_of item = fst (outcome_of item).
Proof.
  destruct item as [idx [name port]]. unfold entry_of, outcome_of.
  destruct (String.prefix "usb:" port) eqn:Hp; [|done].
  rewrite describe_camera_cases by done.
  destruct (port_address port) as [[b d]|]; [|done].
  destruct (usb_find b d) as [dev|]; [|done].
  destruct (usb_get_string dev (iManufacturer dev)) as [e|m]; [done|].
  by destruct (usb_get_string dev (iProduct dev)) as [e|p].
Qed.

Lemma outcome_line (item : Z * (string * string)) :
  line_of item = snd (outcome_of item).
Proof.
  destruct item as [idx [name port]]. unfold line_of, outcome_of.
  destruct (String.prefix "usb:" port) eqn:Hp; [|done].
  rewrite describe_camera_cases by done.
  destruct (port_address port) as [[b d]|]; [|done].
  destruct (usb_find b d) as [dev|]; [|done].
  destruct (usb_get_string dev (iManufacturer dev)) as [e|m]; [done|].
  by destruct (usb_get_string dev (iProduct dev)) as [e|p].
Qed.

(** A handle of the result with the index of a scanned device comes from
    that device. *)
Lemma handle_origin (l : list (string * string)) info idx name port :
  In info (flat_map entry_of (enumerate l)) →
  In (idx, (name, port)) (enumerate l) →
  index info = idx →
  String.prefix "usb:" port = true ∧ describe_camera idx port = inr (Some info).
Proof.
  intros ([idx' [name' port']] & Hin' & He)%in_flat_map Hin Hidx.
  unfold entry_of in He.
  destruct (String.prefix "usb:" port') eqn:Hp; [|done].
  destruct (describe_camera idx' port') as [e | [info'|]] eqn:Hd; try done.
  destruct He as [-> | []].
  destruct (describe_camera_inv _ _ _ Hp Hd) as [Hi _].
  assert (idx' = idx) as -> by congruence.
  unfold enumerate in Hin, Hin'.
  pose proof (numbered_unique 0 l idx _ _ Hin' Hin) as E.
  injection E as -> ->. done.
Qed.

(** A printed line names a port that starts with [usb:] and for which the
    lookup raised. *)
Lemma line_origin (l : list (Z * (string * string))) port e :
  In (PrintCameraError port e) (flat_map line_of l) →
  String.prefix "usb:" port = true ∧ ∃ idx, describe_camera idx port = inl e.
Proof.
  intros ([idx' [name' port']] & Hin' & Hl)%in_flat_map.
  unfold line_of in Hl.
  destruct (String.prefix "usb:" port') eqn:Hp; [|done].
  destruct (describe_camera idx' port') as [e' | [info'|]] eqn:Hd; try done.
  destruct Hl as [E | []]. injection E as -> ->. split; [done|]. by exists idx'.
Qed.

End Enumeration.

Example enumerate_sample :
  run list_connected_cameras start = inr [sample_camera].
Proof. reflexivity. Qed.

Example enumerate_odd_ports :
  @list_connected_cameras odd_ports_env start
  = (inr [ {| index := 2; bus := 1; device := 4;
              manufacturer_id := "Nikon"; product_id := "Unknown" |} ],
     {| detect_calls := 1;
        trace := [PrintCameraError "usb:" ValueError];
        images := [] |}).
Proof. reflexivity. Qed.

Example enumerate_unreadable :
  @list_connected_cameras unreadable_env start
  = (inr [],
     {| detect_calls := 1;
        trace := [PrintCameraError "usb:001,004" (LibraryError "USBError")];
        images := [] |}).
Proof. reflexivity. Qed.

(** C9 as stated fails: a camera with a recognizable address that
    [usb.core.find] finds, but whose identity strings cannot be read, is
    left out of the result. *)
Lemma unreadable_identity_drops_device :
  ¬ (∀ (E : Externals) (s : State) idx name port b d dev,
       In (idx, (name, port)) (enumerate (autodetect_at (detect_calls s))) →
       port_address port = Some (b, d) → usb_find b d = Some dev →
       ∃ cams info, run list_connected_cameras s = inr cams
                    ∧ In info cams ∧ index info = idx).
Proof.
  intros Hclaim.
  destruct (Hclaim unreadable_env start 0%Z "Nikon DSC" "usb:001,004" 1%Z 4%Z
              {| iManufacturer := 1; iProduct := 2 |})
    as (cams & info & Hrun & Hin & _).
  - by left.
  - reflexivity.
  - reflexivity.
  - vm_compute in Hrun. injection Hrun as <-. destruct Hin.
Qed.

Lemma port_address_prefix `{Externals} port a :
  port_address port = Some a → String.prefix "usb:" port = true.
Proof. unfold port_address. by destruct (String.prefix "usb:" port). Qed.

(** C9, amended.  [list_connected_cameras] never raises and changes nothing
    but the scan counter and the printed lines.  Its result has exactly the
    devices whose port starts with [usb:] and for which the lookup returned
    a handle; a line is printed exactly for the devices whose port starts
    with [usb:] and for which the lookup raised, so that the other ports are
    skipped without a line.  For a port with a readable address and a
    device found: an identity string that is absent or empty becomes
    [Unknown]; reading it with an exception makes the lookup raise, which
    leaves the device out.

    Device by device, in the order of the scan, the result and the printed
    lines are those of [outcome_of].  For a scanned device: when the port
    does not start with [usb:] it gives no handle and no line; when the
    port starts with [usb:] and its address cannot be read it gives no
    handle and one line with [ValueError]; when [usb.core.find] finds no
    device at the address it gives no handle and no line; when reading an
    identity string raises it gives no handle and one line with the
    exception; when both strings are read it gives its handle, with
    [Unknown] for an absent or empty string and the string itself
    otherwise, and no line. *)
Theorem enumeration_tolerates_failures `{Externals} (s : State) :
  ∃ cams printed,
    list_connected_cameras s =
    (inr cams, {| detect_calls := S (detect_calls s);
                  trace := trace s ++ printed;
                  images := images s |}) ∧
    (∀ info, In info cams ↔
       ∃ idx name port,
         In (idx, (name, port)) (enumerate (autodetect_at (detect_calls s)))
         ∧ String.prefix "usb:" port = true
         ∧ describe_camera idx port = inr (Some info)) ∧
    (∀ ev, In ev printed ↔
       ∃ idx name port e,
         In (idx, (name, port)) (enumerate (autodetect_at (detect_calls s)))
         ∧ String.prefix "usb:" port = true
         ∧ describe_camera idx port = inl e
         ∧ ev = PrintCameraError port e) ∧
    (∀ idx port b d dev,
       port_address port = Some (b, d) → usb_find b d = Some dev →
       match usb_get_string dev (iManufacturer dev),
             usb_get_string dev (iProduct dev) with
       | inr m, inr p =>
           describe_camera idx port =
           inr (Some {| index := idx; bus := b; device := d;
                        manufacturer_id := or_unknown m;
                        product_id := or_unknown p |})
       | inl e, _ | inr _, inl e => describe_camera idx port = inl e
       end) ∧
    or_unknown None = "Unknown" ∧ or_unknown (Some "") = "Unknown" ∧
    (∀ c r, or_unknown (Some (String c r)) = String c r) ∧
    cams = flat_map (fun item => fst (outcome_of item))
                    (enumerate (autodetect_at (detect_calls s))) ∧
    printed = flat_map (fun item => snd (outcome_of item))
                       (enumerate (autodetect_at (detect_calls s))) ∧
    (∀ idx name port,
       In (idx, (name, port)) (enumerate (autodetect_at (detect_calls s))) →
       let left_out := ∀ info, In info cams → index info ≠ idx in
       let no_line := ∀ e, ¬ In (PrintCameraError port e) printed in
       (String.prefix "usb:" port = false → left_out ∧ no_line) ∧
       (String.prefix "usb:" port = true → port_address port = None →
        left_out ∧ In (PrintCameraError port ValueError) printed) ∧
       (∀ b d,
          port_address port = Some (b, d) → usb_find b d = None →
          left_out ∧ no_line) ∧
       (∀ b d dev e,
          port_address port = Some (b, d) → usb_find b d = Some dev →
          usb_get_string dev (iManufacturer dev) = inl e
          ∨ (is_raised (usb_get_string dev (iManufacturer dev)) = false
             ∧ usb_get_string dev (iProduct dev) = inl e) →
          left_out ∧ In (PrintCameraError port e) printed) ∧
       (∀ b d dev m p,
          port_address port = Some (b, d) → usb_find b d = Some dev →
          usb_get_string dev (iManufacturer dev) = inr m →
          usb_get_string dev (iProduct dev) = inr p →
          In {| index := idx; bus := b; device := d;
                manufacturer_id := or_unknown m;
                product_id := or_unknown p |} cams
          ∧ no_line)).
Proof.
  exists (flat_map entry_of (enumerate (autodetect_at (detect_calls s)))),
         (flat_map line_of (enumerate (autodetect_at (detect_calls s)))).
  split; [apply list_connected_cameras_step|].
  split; [|split; [|split; [|split; [done|split; [done|split; [done|split; [|split]]]]]]].
  - intros info. rewrite in_flat_map. split.
    + intros ([idx [name port]] & Hin & Hentry). exists idx, name, port.
      unfold entry_of in Hentry.
      destruct (String.prefix "usb:" port); [|done].
      destruct (describe_camera idx port) as [e | [info'|]]; try done.
      destruct Hentry as [-> | []]. done.
    + intros (idx & name & port & Hin & Hp & Hd).
      exists (idx, (name, port)). split; [done|].
      unfold entry_of. rewrite Hp, Hd. by left.
  - intros ev. rewrite in_flat_map. split.
    + intros ([idx [name port]] & Hin & Hline). exists idx, name, port.
      unfold line_of in Hline.
      destruct (String.prefix "usb:" port); [|done].
      destruct (describe_camera idx port) as [e | [info'|]]; try done.
      destruct Hline as [<- | []]. by exists e.
    + intros (idx & name & port & e & Hin & Hp & Hd & ->).
      exists (idx, (name, port)). split; [done|].
      unfold line_of. rewrite Hp, Hd. by left.
  - intros idx port b d dev Haddr Hfind.
    rewrite (describe_camera_found idx port b d dev)
      by eauto using port_address_prefix.
    destruct (usb_get_string dev (iManufacturer dev)) as [e|m]; [done|].
    by destruct (usb_get_string dev (iProduct dev)) as [e|p].
  - apply flat_map_ext. intros item. apply outcome_entry.
  - apply flat_map_ext. intros item. apply outcome_line.
  - intros idx name port Hin left_out no_line.
    assert (Hhandle : ∀ r, (∀ info, r ≠ inr (Some info)) →
              (String.prefix "usb:" port = true → describe_camera idx port = r) →
              left_out).
    { intros r Hr Hd info Hinfo Hidx.
      destruct (handle_origin _ _ _ _ _ Hinfo Hin Hidx) as [Hp Hd'].
      apply (Hr info). by rewrite <- (Hd Hp). }
    assert (Hline : ∀ r, (∀ e, r ≠ inl e) →
              (∀ idx', String.prefix "usb:" port = true →
                       describe_camera idx' port = r) →
              no_line).
    { intros r Hr Hd e (Hp & idx' & Hd')%line_origin.
      apply (Hr e). by rewrite <- (Hd idx' Hp). }
    assert (Hprinted : ∀ e, String.prefix "usb:" port = true →
              describe_camera idx port = inl e →
              In (PrintCameraError port e)
                 (flat_map line_of (enumerate (autodetect_at (detect_calls s))))).
    { intros e Hp Hd. apply in_flat_map. exists (idx, (name, port)).
      split; [done|]. unfold line_of. rewrite Hp, Hd. by left. }
    split; [|split; [|split; [|split]]].
    + intros Hp. split.
      * apply (Hhandle (inr None)); [done|]. intros Hp'. congruence.
      * apply (Hline (inr None)); [done|]. intros idx' Hp'. congruence.
    + intros Hp Haddr.
      assert (Hd : ∀ idx', describe_camera idx' port = inl ValueError).
      { intros idx'. by rewrite describe_camera_cases, Haddr. }
      split; [apply (Hhandle (inl ValueError)); [done | auto]|].
      by apply Hprinted.
    + intros b d Haddr Hfind.
      assert (Hd : ∀ idx', describe_camera idx' port = inr None).
      { intros idx'.
        rewrite describe_camera_cases, Haddr, Hfind
          by eauto using port_address_prefix. done. }
      split; [apply (Hhandle (inr None)); [done | auto]|].
      apply (Hline (inr None)); [done | auto].
    + intros b d dev e Haddr Hfind Hraise.
      assert (Hd : ∀ idx', describe_camera idx' port = inl e).
      { intros idx'.
        rewrite describe_camera_cases, Haddr, Hfind
          by eauto using port_address_prefix.
        destruct Hraise as [-> | [Hm ->]]; [done|].
        by destruct (usb_get_string dev (iManufacturer dev)). }
      split; [apply (Hhandle (inl e)); [done | auto]|].
      apply Hprinted; [by eauto using port_address_prefix | done].
    + intros b d dev m p Haddr Hfind Hm Hp.
      assert (Hd : ∀ idx', describe_camera idx' port =
                inr (Some {| index := idx'; bus := b; device := d;
                             manufacturer_id := or_unknown m;
                             product_id := or_unknown p |})).
      { intros idx'.
        rewrite describe_camera_cases, Haddr, Hfind, Hm, Hp
          by eauto using port_address_prefix. done. }
      split.
      * apply in_flat_map. exists (idx, (name, port)). split; [done|].
        unfold entry_of.
        rewrite (port_address_prefix _ _ Haddr), Hd. by left.
      * intros e (Hpre & idx' & Hd')%line_origin. by rewrite Hd in Hd'.
Qed.

(** The scan of [odd_ports_env]: a port that is not [usb:], a [usb:] port
    without address, a camera found. *)
Example enumerate_odd_ports_outcomes :
  map (@outcome_of odd_ports_env) (enumerate (@autodetect_at odd_ports_env 0))
  = [ ([], []);
      ([], [PrintCameraError "usb:" ValueError]);
      ([ {| index := 2; bus := 1; device := 4;
            manufacturer_id := "Nikon"; product_id := "Unknown" |} ], []) ].
Proof. reflexivity. Qed.

(** A camera that pyusb does not find is left out without a line. *)
Example enumerate_vanished :
  @list_connected_cameras vanished_env start
  = (inr [], {| detect_calls := 1; trace := []; images := [] |}).
Proof. reflexivity. Qed.

(** ** The catalog: lookup by content *)

Lemma where_clause_same_content (image_data row : ImageMetadata) :
  where_clause image_data row = true ↔ same_content row image_data.
Proof.
  unfold where_clause, same_content.
  rewrite !andb_true_iff, !Z.eqb_eq, !String.eqb_eq, !Qeq_bool_iff. tauto.
Qed.

Lemma same_content_refl (a : ImageMetadata) : same_content a a.
Proof. unfold same_content. repeat split; reflexivity. Qed.

Lemma rows_after_add (batch : list ImageMetadata) (s : State) :
  add batch s =
  (inr tt, {| detect_calls := detect_calls s; trace := trace s;
              images := fold_left (fun rows img => insert_or_replace img rows)
                                  batch (images s) |}).
Proof. reflexivity. Qed.

Lemma contains_step (image_data : ImageMetadata) (s : State) :
  contains image_data s = (inr (existsb (where_clause image_data) (images s)), s).
Proof. reflexivity. Qed.

Lemma clear_add_step (batch : list ImageMetadata) (s : State) :
  (clear;; add batch) s =
  (inr tt, {| detect_calls := detect_calls s; trace := trace s;
              images := fold_left (fun rows img => insert_or_replace img rows)
                                  batch [] |}).
Proof. reflexivity. Qed.

(** C2.  For records that SQLite stores, [contains] does not raise and
    changes nothing; it answers [true] exactly when some stored row agrees
    with the record on the seven fields that are not the key, whatever the
    file names are.  In particular, after [a] was added, a query with the
    content of [a] under any name is answered [true], and in a catalog that
    holds [a] alone a query is answered [true] only if it agrees with [a]
    on all seven fields. *)
Theorem contains_by_fingerprint (s : State) (r a b : ImageMetadata) (n : string) :
  storable r → storable a → storable b →
  (∃ found,
     contains r s = (inr found, s) ∧
     (found = true ↔ ∃ row, In row (images s) ∧ same_content row r)) ∧
  run (contains (renamed n r)) s = run (contains r) s ∧
  run (contains (renamed n a)) (exec (add [a]) s) = inr true ∧
  (run (contains b) (exec (clear;; add [a]) s) = inr true ↔ same_content a b).
Proof.
  intros _ _ _. split; [|split; [|split]].
  - exists (existsb (where_clause r) (images s)). split; [reflexivity|].
    rewrite existsb_exists. split.
    + intros (row & Hin & Hw). exists row. split; [done|].
      by apply where_clause_same_content.
    + intros (row & Hin & Hs). exists row. split; [done|].
      by apply where_clause_same_content.
  - reflexivity.
  - unfold run, exec. rewrite rows_after_add, contains_step. cbn [fst snd images fold_left].
    f_equal. apply existsb_exists. exists a. split.
    + unfold insert_or_replace. apply in_or_app. right. by left.
    + apply where_clause_same_content. unfold same_content, renamed. cbn.
      repeat split; reflexivity.
  - unfold run, exec. rewrite contains_step, clear_add_step.
    cbn. rewrite orb_false_r. split.
    + intros E. injection E as E. by apply where_clause_same_content.
    + intros Hs. f_equal. by apply where_clause_same_content.
Qed.

Lemma contains_by_fingerprint_witness :
  let other := {| file_name := "A.JPG"; rating := 4; aperture := 28 # 10;
                  lens_id := "24-70mm f/2.8";
                  capture_time := "2024:05:01 10:00:00";
                  focal_length := 50; exposure_time := 1 # 250;
                  color_temperature := 0 |} in
  let s := exec (add [shot]) start in
  storable (renamed "C.JPG" shot) ∧ storable shot ∧ storable other ∧
  (∃ found,
     contains (renamed "C.JPG" shot) s = (inr found, s) ∧
     (found = true ↔
      ∃ row, In row (images s) ∧ same_content row (renamed "C.JPG" shot))) ∧
  run (contains (renamed "B.JPG" (renamed "C.JPG" shot))) s
  = run (contains (renamed "C.JPG" shot)) s ∧
  run (contains (renamed "B.JPG" shot)) (exec (add [shot]) s) = inr true ∧
  (run (contains other) (exec (clear;; add [shot]) s) = inr true
   ↔ same_content shot other).
Proof.
  intros other s.
  assert (H1 : storable (renamed "C.JPG" shot))
    by (unfold storable, sqlite_integer; cbn; lia).
  assert (H2 : storable shot) by (unfold storable, sqlite_integer; cbn; lia).
  assert (H3 : storable other) by (unfold storable, sqlite_integer; cbn; lia).
  split; [exact H1|]. split; [exact H2|]. split; [exact H3|].
  exact (contains_by_fingerprint s (renamed "C.JPG" shot) shot other "B.JPG"
           H1 H2 H3).
Defined.

Example contains_other_name :
  run (contains (renamed "B.JPG" shot)) (exec (add [shot]) start) = inr true.
Proof. reflexivity. Qed.

Example contains_other_rating :
  run (contains {| file_name := "A.JPG"; rating := 4; aperture := 28 # 10;
                   lens_id := "24-70mm f/2.8";
                   capture_time := "2024:05:01 10:00:00";
                   focal_length := 50; exposure_time := 1 # 250;
                   color_temperature := 0 |})
      (exec (add [shot]) start) = inr false.
Proof. reflexivity. Qed.

(** ** The catalog: upsert *)

Section Upsert.

Lemma filter_filter_and {A} (p q : A → bool) (l : list A) :
  List.filter p (List.filter q l) = List.filter (fun x => q x && p x) l.
Proof.
  induction l as [|x l IH]; [done|]. simpl.
  destruct (q x); simpl; [|done]. destruct (p x); by rewrite IH.
Qed.

Lemma filter_none {A} (p : A → bool) (l : list A) :
  (∀ x, In x l → p x = false) → List.filter p l = [].
Proof.
  induction l as [|x l IH]; [done|]. intros Hp. simpl.
  rewrite (Hp x) by (by left). apply IH. intros y Hy. apply Hp. by right.
Qed.

(** The table after an upsert: the rows whose name the batch does not
    have, then the records of the batch that no later one replaces. *)
Lemma upsert_rows (batch rows : list ImageMetadata) :
  upsert batch rows =
  List.filter (fun row => negb (named_in batch row)) rows ++ keep_last batch.
Proof.
  unfold upsert. revert rows. induction batch as [|x b IH]; intros rows.
  - simpl. rewrite app_nil_r. symmetry. clear.
    induction rows as [|r rows IHr]; [done|]. simpl. by rewrite IHr.
  - cbn [fold_left]. rewrite IH. unfold insert_or_replace.
    rewrite List.filter_app, filter_filter_and, <- app_assoc. f_equal.
    + apply filter_ext. intros row. cbn. by rewrite negb_orb.
    + cbn. by destruct (named_in b x).
Qed.

Lemma keep_last_incl (batch : list ImageMetadata) x :
  In x (keep_last batch) → In x batch.
Proof.
  induction batch as [|y b IH]; [done|]. simpl.
  destruct (named_in b y); [by right; apply IH|].
  intros [-> | Hx]; [by left | by right; apply IH].
Qed.

Lemma named_in_self (batch : list ImageMetadata) x :
  In x batch → named_in batch x = true.
Proof.
  intros Hx. apply existsb_exists. exists x. split; [done | apply String.eqb_refl].
Qed.

Lemma upsert_twice (batch rows : list ImageMetadata) :
  upsert batch (upsert batch rows) = upsert batch rows.
Proof.
  rewrite (upsert_rows batch (upsert batch rows)), (upsert_rows batch rows).
  f_equal. rewrite List.filter_app, filter_filter_and.
  rewrite (filter_none _ (keep_last batch)).
  - rewrite app_nil_r. apply filter_ext. intros row. by rewrite andb_diag.
  - intros x Hx%keep_last_incl. by rewrite named_in_self.
Qed.

Lemma last_named_none n (batch : list ImageMetadata) :
  last_named n batch = None ↔
  existsb (fun y => String.eqb n (file_name y)) batch = false.
Proof.
  induction batch as [|x b IH]; [done|]. simpl.
  rewrite (String.eqb_sym n). destruct (last_named n b) as [y|].
  - split; [done|]. intros [_ Hb]%orb_false_iff. by apply IH in Hb.
  - destruct IH as [IH _]. rewrite IH by done. rewrite orb_false_r.
    by destruct (String.eqb (file_name x) n).
Qed.

Lemma rows_named_keep_last n (batch : list ImageMetadata) :
  rows_named n (keep_last batch) =
  match last_named n batch with Some img => [img] | None => [] end.
Proof.
  induction batch as [|x b IH]; [done|]. simpl.
  destruct (named_in b x) eqn:Hx.
  - rewrite IH. destruct (last_named n b) as [y|] eqn:Hl; [done|].
    destruct (String.eqb_spec (file_name x) n) as [<- | _]; [|done].
    apply last_named_none in Hl. unfold named_in in Hx. congruence.
  - cbn [rows_named List.filter]. fold (rows_named n (keep_last b)). rewrite IH.
    destruct (String.eqb_spec (file_name x) n) as [<- | _];
      [|by destruct (last_named n b)].
    assert (last_named (file_name x) b = None) as ->; [|done].
    by apply last_named_none.
Qed.

Lemma rows_named_upsert n (batch rows : list ImageMetadata) :
  rows_named n (upsert batch rows) =
  match last_named n batch with
  | Some img => [img]
  | None => rows_named n rows
  end.
Proof.
  rewrite upsert_rows. unfold rows_named at 1.
  rewrite List.filter_app. fold (rows_named n (keep_last batch)).
  rewrite rows_named_keep_last, filter_filter_and.
  destruct (last_named n batch) as [img|] eqn:Hl.
  - rewrite filter_none; [done|]. intros row _. cbv beta.
    destruct (String.eqb_spec (file_name row) n) as [E | _];
      [|by rewrite andb_false_r].
    rewrite andb_true_r. apply negb_false_iff.
    destruct (named_in batch row) eqn:Hn; [done|].
    unfold named_in in Hn. rewrite E in Hn.
    apply last_named_none in Hn. congruence.
  - rewrite app_nil_r. apply filter_ext_in. intros row _. cbv beta.
    destruct (String.eqb_spec (file_name row) n) as [E | _];
      [|by rewrite andb_false_r].
    rewrite andb_true_r. apply negb_true_iff.
    unfold named_in. rewrite E. by apply last_named_none.
Qed.

Lemma keep_last_names_NoDup (batch : list ImageMetadata) :
  NoDup (map file_name (keep_last batch)).
Proof.
  induction batch as [|x b IH]; [constructor|]. simpl.
  destruct (named_in b x) eqn:Hx; [done|]. simpl. constructor; [|done].
  intros (y & Hy & Hin%keep_last_incl)%list_elem_of_In%in_map_iff.
  assert (named_in b x = true); [|congruence].
  apply existsb_exists. exists y. split; [done|]. by apply String.eqb_eq.
Qed.

Lemma upsert_names_NoDup (batch rows : list ImageMetadata) :
  NoDup (map file_name rows) → NoDup (map file_name (upsert batch rows)).
Proof.
  intros Hnd. rewrite upsert_rows, map_app. apply NoDup_app. split; [|split].
  - clear -Hnd. induction rows as [|r rows IH]; [constructor|].
    simpl in *. apply NoDup_cons in Hnd as [Hr Hnd].
    destruct (negb (named_in batch r)); [|by apply IH].
    simpl. constructor; [|by apply IH].
    intros (y & Hy & [Hin _]%filter_In)%list_elem_of_In%in_map_iff.
    apply Hr. rewrite <- Hy. by apply list_elem_of_In, in_map.
  - intros n (r & <- & [_ Hr]%filter_In)%list_elem_of_In%in_map_iff
             (y & Hy & Hin%keep_last_incl)%list_elem_of_In%in_map_iff.
    apply negb_true_iff in Hr.
    assert (named_in batch r = true); [|congruence].
    apply existsb_exists. exists y. split; [done|].
    by apply String.eqb_eq.
  - apply keep_last_names_NoDup.
Qed.

End Upsert.

(** C5.  For a batch of records that SQLite stores, [add] does not raise.
    Applying it twice with the same batch leaves the state that applying it
    once leaves.  After it, the rows with a given file name are: the last
    record of the batch with that name, alone, when the batch has the name;
    the rows the table had, otherwise.  File names that were unique stay
    unique. *)
Theorem upsert_idempotent (batch : list ImageMetadata) (s : State) :
  Forall storable batch →
  run (add batch) s = inr tt ∧
  exec (add batch) (exec (add batch) s) = exec (add batch) s ∧
  (∀ n, rows_named n (images (exec (add batch) s)) =
        match last_named n batch with
        | Some img => [img]
        | None => rows_named n (images s)
        end) ∧
  (NoDup (map file_name (images s)) →
   NoDup (map file_name (images (exec (add batch) s)))).
Proof.
  intros _. unfold run, exec. rewrite !rows_after_add.
  cbn [fst snd detect_calls trace images]. fold (upsert batch (images s)).
  fold (upsert batch (upsert batch (images s))).
  split; [done|]. split; [|split].
  - by rewrite upsert_twice.
  - intros n. apply rows_named_upsert.
  - apply upsert_names_NoDup.
Qed.

Lemma upsert_idempotent_witness :
  let batch := [shot; renamed "B.JPG" shot; renamed "A.JPG" shot] in
  let s := exec (add [shot]) start in
  Forall storable batch ∧
  run (add batch) s = inr tt ∧
  exec (add batch) (exec (add batch) s) = exec (add batch) s ∧
  (∀ n, rows_named n (images (exec (add batch) s)) =
        match last_named n batch with
        | Some img => [img]
        | None => rows_named n (images s)
        end) ∧
  (NoDup (map file_name (images s)) →
   NoDup (map file_name (images (exec (add batch) s)))).
Proof.
  intros batch s.
  assert (Hb : Forall storable batch).
  { repeat constructor; cbn; lia. }
  split; [exact Hb|]. exact (upsert_idempotent batch s Hb).
Defined.

Example add_twice_sample :
  images (exec (add [shot; renamed "B.JPG" shot; renamed "A.JPG" shot])
               (exec (add [shot]) start))
  = [renamed "B.JPG" shot; renamed "A.JPG" shot].
Proof. reflexivity. Qed.

(** ** Extraction of the metadata of one file *)

Example load_sample :
  load "/tmp/a/x.jpg"
  = inr {| file_name := "x.jpg"; rating := 3; aperture := 28 # 10;
           lens_id := ""; capture_time := ""; focal_length := 0;
           exposure_time := 0; color_temperature := 0 |}.
Proof. reflexivity. Qed.

Example load_string_number :
  (md ← load "/tmp/a/y.jpg"; mret (color_temperature md)) = inr 1%Z.
Proof. reflexivity. Qed.

Example load_malformed : load "/tmp/a/bad.jpg" = inl ValueError.
Proof. reflexivity. Qed.

Example load_unreadable : load "/tmp/none.jpg" = inl (LibraryError "exiftool").
Proof. reflexivity. Qed.

Example load_some_tags :
  exiftool_json "/tmp/a/x.jpg"
  = inr (<["XMP:Rating" := JInt 3]> (<["EXIF:FNumber" := JFloat (28 # 10)]> ∅))
  ∧ load "/tmp/a/x.jpg"
    = inr {| file_name := "x.jpg"; rating := 3; aperture := 28 # 10;
             lens_id := ""; capture_time := ""; focal_length := 0;
             exposure_time := 0; color_temperature := 0 |}.
Proof. split; reflexivity. Qed.

Section Load.
Context `{Externals}.

Lemma Result_bind_inr {A B} (m : Result A) (k : A → Result B) (b : B) :
  (x ← m; k x) = inr b → ∃ a, m = inr a ∧ k a = inr b.
Proof. destruct m as [e|a]; [done|]. intros Hk. by exists a. Qed.

Lemma int_field_get (metadata : gmap string JValue) (tag : string) (n : Z) :
  py_int (dict_get metadata tag (JInt 0)) = inr n → int_field metadata tag n.
Proof.
  unfold int_field, dict_get. destruct (metadata !! tag); [done|].
  cbn. congruence.
Qed.

Lemma float_field_get (metadata : gmap string JValue) (tag : string) (x : Q) :
  py_float (dict_get metadata tag (JFloat 0)) = inr x → float_field metadata tag x.
Proof.
  unfold float_field, dict_get. destruct (metadata !! tag); [done|].
  cbn. congruence.
Qed.

Lemma str_field_get (metadata : gmap string JValue) (tag : string) :
  str_field metadata tag (py_str (dict_get metadata tag (JString ""))).
Proof. unfold str_field, dict_get. by destruct (metadata !! tag). Qed.

Lemma int_tag_read (metadata : gmap string JValue) (tag : string) :
  (∀ v, metadata !! tag = Some v → is_raised (py_int v) = false) →
  ∃ n, py_int (dict_get metadata tag (JInt 0)) = inr n.
Proof.
  unfold dict_get. destruct (metadata !! tag) as [v|]; [|by eexists].
  intros Hv. specialize (Hv v eq_refl). destruct (py_int v); [done | by eexists].
Qed.

Lemma float_tag_read (metadata : gmap string JValue) (tag : string) :
  (∀ v, metadata !! tag = Some v → is_raised (py_float v) = false) →
  ∃ x, py_float (dict_get metadata tag (JFloat 0)) = inr x.
Proof.
  unfold dict_get. destruct (metadata !! tag) as [v|]; [|by eexists].
  intros Hv. specialize (Hv v eq_refl). destruct (py_float v); [done | by eexists].
Qed.

End Load.

(** C6.  A record that [load] returns has the base name of the path as its
    file name.  When none of the seven tags is present the record has the
    defaults 0, 0.0, empty, empty, 0.0, 0.0, 0.  When a tag of a numeric
    field is present with a value that [int] (rating, colour temperature)
    or [float] (aperture, focal length, exposure time) rejects, [load]
    raises.  Tag by tag, whatever the other tags are: a field whose tag is
    absent has its default, and a field whose tag is present has what
    [int], [float] or [str] makes of the value of the tag.  [load] returns a
    record whenever exiftool answers and every numeric tag that is present
    has a value that [int] or [float] accepts, and it raises the error of
    exiftool when exiftool raises. *)
Theorem load_defaults_and_failures `{Externals} (path : string) :
  (∀ r, load path = inr r → file_name r = posixpath.basename path) ∧
  (∀ metadata,
     exiftool_json path = inr metadata →
     metadata !! "XMP:Rating" = None →
     metadata !! "EXIF:FNumber" = None →
     metadata !! "Composite:LensSpec" = None →
     metadata !! "EXIF:DateTimeOriginal" = None →
     metadata !! "EXIF:FocalLength" = None →
     metadata !! "EXIF:ExposureTime" = None →
     metadata !! "EXIF:WhiteBalance" = None →
     load path = inr {| file_name := posixpath.basename path;
                        rating := 0; aperture := 0; lens_id := "";
                        capture_time := ""; focal_length := 0;
                        exposure_time := 0; color_temperature := 0 |}) ∧
  (∀ metadata tag v,
     exiftool_json path = inr metadata →
     metadata !! tag = Some v →
     (In tag ["XMP:Rating"; "EXIF:WhiteBalance"] ∧ is_raised (py_int v) = true)
     ∨ (In tag ["EXIF:FNumber"; "EXIF:FocalLength"; "EXIF:ExposureTime"]
        ∧ is_raised (py_float v) = true) →
     is_raised (load path) = true) ∧
  (∀ metadata r,
     exiftool_json path = inr metadata →
     load path = inr r →
     int_field metadata "XMP:Rating" (rating r) ∧
     float_field metadata "EXIF:FNumber" (aperture r) ∧
     str_field metadata "Composite:LensSpec" (lens_id r) ∧
     str_field metadata "EXIF:DateTimeOriginal" (capture_time r) ∧
     float_field metadata "EXIF:FocalLength" (focal_length r) ∧
     float_field metadata "EXIF:ExposureTime" (exposure_time r) ∧
     int_field metadata "EXIF:WhiteBalance" (color_temperature r)) ∧
  (∀ metadata,
     exiftool_json path = inr metadata →
     (∀ tag v, In tag ["XMP:Rating"; "EXIF:WhiteBalance"] →
               metadata !! tag = Some v → is_raised (py_int v) = false) →
     (∀ tag v, In tag ["EXIF:FNumber"; "EXIF:FocalLength"; "EXIF:ExposureTime"] →
               metadata !! tag = Some v → is_raised (py_float v) = false) →
     is_raised (load path) = false) ∧
  (∀ e, exiftool_json path = inl e → load path = inl e).
Proof.
  split; [|split; [|split; [|split; [|split]]]].
  - intros r. unfold load, mbind, Result_bind.
    repeat match goal with
           | |- match ?c with _ => _ end = _ → _ => destruct c; [done|]
           end.
    intros E. injection E as <-. reflexivity.
  - intros metadata Hex H1 H2 H3 H4 H5 H6 H7.
    unfold load, dict_get. rewrite Hex. unfold mbind at 1, Result_bind at 1.
    rewrite H1, H2, H3, H4, H5, H6, H7. reflexivity.
  - intros metadata tag v Hex Hv Hbad.
    unfold load. rewrite Hex. unfold mbind at 1, Result_bind at 1. unfold dict_get.
    assert (Hint : ∀ w, is_raised (py_int w) = true → ∃ e, py_int w = inl e).
    { intros w. destruct (py_int w); [by eexists | done]. }
    assert (Hfl : ∀ w, is_raised (py_float w) = true → ∃ e, py_float w = inl e).
    { intros w. destruct (py_float w); [by eexists | done]. }
    destruct Hbad as [[Htag [e He]%Hint] | [Htag [e He]%Hfl]]; simpl in Htag;
      repeat (destruct Htag as [<- | Htag]); try done;
      rewrite Hv; rewrite ?He;
      repeat (unfold mbind at 1, Result_bind at 1;
              match goal with
              | |- is_raised (inl _) = true => reflexivity
              | |- is_raised (match ?c with _ => _ end) = true =>
                  destruct c as [?|?]; [reflexivity|]
              end).
  - intros metadata r Hex. unfold load. rewrite Hex.
    unfold mbind at 1, Result_bind at 1.
    intros (n1 & H1 & Hl)%Result_bind_inr.
    apply Result_bind_inr in Hl as (x2 & H2 & Hl).
    apply Result_bind_inr in Hl as (x5 & H5 & Hl).
    apply Result_bind_inr in Hl as (x6 & H6 & Hl).
    apply Result_bind_inr in Hl as (n7 & H7 & Hl).
    injection Hl as <-. cbn [rating aperture lens_id capture_time focal_length
                              exposure_time color_temperature].
    repeat split;
      auto using int_field_get, float_field_get, str_field_get.
  - intros metadata Hex Hint Hfl. unfold load. rewrite Hex.
    unfold mbind at 1, Result_bind at 1.
    destruct (int_tag_read metadata "XMP:Rating") as [n1 ->];
      [intros v; apply Hint; cbn; auto|].
    unfold mbind at 1, Result_bind at 1.
    destruct (float_tag_read metadata "EXIF:FNumber") as [x2 ->];
      [intros v; apply Hfl; cbn; auto|].
    unfold mbind at 1, Result_bind at 1.
    destruct (float_tag_read metadata "EXIF:FocalLength") as [x5 ->];
      [intros v; apply Hfl; cbn; auto|].
    unfold mbind at 1, Result_bind at 1.
    destruct (float_tag_read metadata "EXIF:ExposureTime") as [x6 ->];
      [intros v; apply Hfl; cbn; auto|].
    unfold mbind at 1, Result_bind at 1.
    destruct (int_tag_read metadata "EXIF:WhiteBalance") as [n7 ->];
      [intros v; apply Hint; cbn; auto|].
    reflexivity.
  - intros e He. unfold load. by rewrite He.
Qed.

(** ** The worker pool *)

Section Pool.
Context {A B : Type} (fn : A → M B) (out : A → B) (log : A → list Event).
Hypothesis fn_step : ∀ x s, fn x s = (inr (out x), add_trace s (log x)).
Variable xs : list A.

Lemma add_trace_nil s : add_trace s [] = s.
Proof. unfold add_trace. rewrite app_nil_r. by destruct s. Qed.










End Pool.

(** ** Rebuilding the catalog *)

Section Rebuild.
Context `{Externals}.












End Rebuild.

Example rebuild_sample :
  rebuild [2; 0; 1] ["/tmp/a/x.jpg"; "/tmp/a/bad.jpg"; "/tmp/a/y.jpg"] (Some 4%Z)
          (exec (add [shot]) start)
  = (inr tt,
     {| detect_calls := 0;
        trace := [PrintLoadFailed "/tmp/a/bad.jpg" ValueError];
        images := [ {| file_name := "x.jpg"; rating := 3; aperture := 28 # 10;
                       lens_id := ""; capture_time := ""; focal_length := 0;
                       exposure_time := 0; color_temperature := 0 |};
                    {| file_name := "y.jpg"; rating := 0; aperture := 0;
                       lens_id := ""; capture_time := ""; focal_length := 0;
                       exposure_time := 0; color_temperature := 1 |} ] |}).
Proof. reflexivity. Qed.

(** The pool refuses a width that is not positive; the catalog is already
    cleared then. *)
Example rebuild_no_workers :
  rebuild [0] ["/tmp/a/x.jpg"] (Some 0%Z) (exec (add [shot]) start)
  = (inl ValueError, start).
Proof. reflexivity. Qed.




(** ** Independence of the order of completion *)



(** The lines printed do depend on the order of completion. *)
Example rebuild_trace_follows_schedule :
  trace (exec (rebuild [1; 0] ["/tmp/a/bad.jpg"; "/tmp/none.jpg"] None) start)
  = [PrintLoadFailed "/tmp/none.jpg" (LibraryError "exiftool");
     PrintLoadFailed "/tmp/a/bad.jpg" ValueError].
Proof. reflexivity. Qed.

(** * Further properties *)

(** ** Effects of [download_new_files] *)

Section DownloadEffects.
Context `{Externals}.

Lemma download_loop_step destination (l : list (string * CameraFileInfo)) acc s :
  for_each l acc
    (fun downloaded_paths item =>
       let '(folder, name) := posixpath.split (fst item) in
       emit (FileGet folder name);;
       let local_path := posixpath.join destination name in
       emit (Save local_path);;
       mret (downloaded_paths ++ [local_path])) s
  = (inr (acc ++ map (fun item =>
                        posixpath.join destination (posixpath.basename (fst item))) l),
     add_trace s (flat_map (fetch_events destination) l)).
Proof.
  revert acc s. induction l as [|item l IH]; intros acc s.
  - cbn. by rewrite app_nil_r, add_trace_nil.
  - cbn [for_each map flat_map]. unfold mbind at 1, M_bind at 1.
    unfold fetch_events at 1. rewrite <- (split_snd (fst item)).
    destruct (posixpath.split (fst item)) as [folder name].
    unfold mbind at 1, M_bind at 1, emit at 1.
    unfold mbind at 1, M_bind at 1, emit at 1.
    unfold mret at 1, M_ret at 1. rewrite IH. cbn [snd].
    unfold add_trace. cbn. by rewrite <- !app_assoc.
Qed.

Lemma download_new_files_step camera_info days destination s :
  download_new_files camera_info days destination s =
  if stale camera_info (detect_calls s)
  then (inl (IndexError "Camera index out of range"), scanned s)
  else
    let s1 := add_trace (scanned s) [CameraInit; CameraExit] in
    match new_among days (_recurse_and_collect "/" device_root []) with
    | [] => (inr [], s1)
    | item :: rest =>
        let s2 := scanned (add_trace s1 [MakeDirs destination]) in
        if stale camera_info (S (detect_calls s))
        then (inl (IndexError "Camera index out of range"), s2)
        else (inr (map (fun item => posixpath.join destination
                                      (posixpath.basename (fst item)))
                       (item :: rest)),
              add_trace s2 (CameraInit
                            :: flat_map (fetch_events destination) (item :: rest)
                            ++ [CameraExit]))
    end.
Proof.
  unfold download_new_files.
  unfold mbind at 1, M_bind at 1.
  rewrite list_new_files_step, list_images_step.
  destruct (stale camera_info (detect_calls s)); [done|].
  assert (Es1 : {| detect_calls := S (detect_calls s);
                   trace := (trace s ++ [CameraInit]) ++ [CameraExit];
                   images := images s |}
                = add_trace (scanned s) [CameraInit; CameraExit]).
  { unfold add_trace, scanned. cbn. by rewrite <- app_assoc. }
  rewrite Es1. cbv zeta.
  destruct (new_among _ _) as [|item new_files]; [done|].
  cbv beta iota. generalize (item :: new_files). intros l.
  unfold mbind at 1, M_bind at 1, emit at 1.
  unfold mbind at 1, M_bind at 1. unfold autodetect at 1. cbn [detect_calls add_trace scanned].
  fold (stale camera_info (S (detect_calls s))).
  destruct (stale camera_info (S (detect_calls s))); [reflexivity|].
  unfold mbind at 1, M_bind at 1, emit at 1.
  unfold try_finally. rewrite download_loop_step.
  unfold emit, add_trace, scanned. cbn. rewrite <- !app_assoc. reflexivity.
Qed.

End DownloadEffects.

(** ** Dictionaries with repeated keys *)

Section DictGeneral.
Context {X V : Type} (key : X → string) (val : X → V).

Lemma dict_find_set (k k' : string) (v : V) (d : list (string * V)) :
  dict_find k' (dict_set k v d) = if String.eqb k' k then Some v else dict_find k' d.
Proof.
  induction d as [|[k0 v0] d IH]; [done|]. cbn.
  destruct (String.eqb_spec k k0) as [<- | Hne]; cbn.
  - by destruct (String.eqb k' k).
  - rewrite IH. destruct (String.eqb_spec k' k) as [-> | _]; [|done].
    by destruct (String.eqb_spec k k0).
Qed.

Lemma dict_set_keys (k : string) (v : V) (d : list (string * V)) :
  ∀ k', In k' (map fst (dict_set k v d)) ↔ k' = k ∨ In k' (map fst d).
Proof.
  induction d as [|[k0 v0] d IH]; intros k'.
  - cbn. intuition.
  - cbn. destruct (String.eqb_spec k k0) as [<- | Hne]; cbn.
    + intuition.
    + rewrite IH. intuition.
Qed.

Lemma dict_set_NoDup (k : string) (v : V) (d : list (string * V)) :
  NoDup (map fst d) → NoDup (map fst (dict_set k v d)).
Proof.
  induction d as [|[k0 v0] d IH]; [repeat constructor; by intros ?%not_elem_of_nil|].
  cbn. intros [Hk Hd]%NoDup_cons.
  destruct (String.eqb_spec k k0) as [<- | Hne]; cbn.
  - by constructor.
  - constructor; [|by apply IH].
    intros [-> | Hin]%list_elem_of_In%dict_set_keys; [done|].
    by apply Hk, list_elem_of_In.
Qed.

Lemma set_each_cons p x l acc :
  set_each key val p (x :: l) acc =
  set_each key val p l (if p x then dict_set (key x) (val x) acc else acc).
Proof. reflexivity. Qed.

Lemma set_each_NoDup p l acc :
  NoDup (map fst acc) → NoDup (map fst (set_each key val p l acc)).
Proof.
  revert acc. induction l as [|x l IH]; intros acc Hacc; [done|].
  rewrite set_each_cons. apply IH. destruct (p x); [by apply dict_set_NoDup | done].
Qed.

Lemma set_each_keys p l acc k :
  In k (map fst (set_each key val p l acc)) ↔
  In k (map fst acc) ∨ ∃ x, In x l ∧ p x = true ∧ key x = k.
Proof.
  revert acc. induction l as [|x l IH]; intros acc.
  - cbn. split; [by left | by intros [? | (? & [] & _)]].
  - rewrite set_each_cons, IH.
    destruct (p x) eqn:Hp.
    + rewrite dict_set_keys. split.
      * intros [[-> | Hin] | (y & Hy & Hpy & Hk)].
        -- right. exists x. split; [by left | done].
        -- by left.
        -- right. exists y. split; [by right | done].
      * intros [Hin | (y & [-> | Hy] & Hpy & Hk)].
        -- left. by right.
        -- left. by left.
        -- right. by exists y.
    + split.
      * intros [Hin | (y & Hy & Hpy & Hk)]; [by left|].
        right. exists y. split; [by right | done].
      * intros [Hin | (y & [-> | Hy] & Hpy & Hk)]; [by left | congruence |].
        right. by exists y.
Qed.

Lemma set_each_find (l : list X) acc k :
  dict_find k (set_each key val (fun _ => true) l acc) =
  match last_with_key k (map (fun x => (key x, val x)) l) with
  | Some v => Some v
  | None => dict_find k acc
  end.
Proof.
  revert acc. induction l as [|x l IH]; intros acc; [done|].
  rewrite set_each_cons, IH. cbn [map last_with_key].
  destruct (last_with_key k _) as [w|]; [done|].
  cbv beta iota. rewrite dict_find_set. by destruct (String.eqb k (key x)).
Qed.

Lemma set_each_none p l acc :
  (∀ x, In x l → p x = false) → set_each key val p l acc = acc.
Proof.
  revert acc. induction l as [|x l IH]; intros acc Hp; [done|].
  rewrite set_each_cons, (Hp x) by (by left). apply IH. intros y Hy. apply Hp. by right.
Qed.

Lemma set_each_values p l acc k v :
  In (k, v) (set_each key val p l acc) →
  In (k, v) acc ∨ ∃ x, In x l ∧ p x = true ∧ key x = k ∧ val x = v.
Proof.
  revert acc. induction l as [|x l IH]; intros acc; [by left|].
  rewrite set_each_cons. intros Hin%IH.
  destruct Hin as [Hin | (y & Hy & Hpy & Hk & Hv)].
  - destruct (p x) eqn:Hp; [|by left].
    assert (In (k, v) (dict_set (key x) (val x) acc) →
            (k, v) = (key x, val x) ∨ In (k, v) acc) as Hset.
    { clear. induction acc as [|[k0 v0] acc IHa]; cbn; [intuition|].
      destruct (String.eqb (key x) k0); cbn; intuition. }
    destruct (Hset Hin) as [E | Hacc]; [|by left].
    injection E as -> ->. right. exists x. split; [by left | done].
  - right. exists y. split; [by right | done].
Qed.

End DictGeneral.

(** ** What the camera methods do to the session and the destination *)

Section CameraEffects.
Context `{Externals}.

Lemma list_files_step camera_info s :
  list_files camera_info s =
  if stale camera_info (detect_calls s)
  then (inl (IndexError "Camera index out of range"), scanned s)
  else (inr (_list_files_in_folder "/" device_root),
        add_trace (scanned s) [CameraInit; CameraExit]).
Proof.
  unfold list_files, stale, mbind, M_bind, autodetect. cbn.
  destruct (_ >=? _)%Z; [done|].
  unfold add_trace, scanned. cbn. by rewrite <- app_assoc.
Qed.

Lemma list_images_effects camera_info s :
  list_images camera_info s =
  if stale camera_info (detect_calls s)
  then (inl (IndexError "Camera index out of range"), scanned s)
  else (inr (_recurse_and_collect "/" device_root []),
        add_trace (scanned s) [CameraInit; CameraExit]).
Proof.
  rewrite list_images_step. destruct (stale _ _); [done|].
  unfold add_trace, scanned. cbn. by rewrite <- app_assoc.
Qed.

Lemma collected_from_tree t item :
  In item (_recurse_and_collect "/" t []) →
  ∃ dirs name, file_at t dirs name (snd item).
Proof.
  rewrite recurse_listing. destruct item as [k v]. intros Hin.
  assert (Hin' : In (k, v) (set_each (walked_path "/") (fun x => snd (snd x))
                              (fun _ => true) (listing t) [])) by exact Hin.
  apply set_each_values in Hin' as [[] | ([dirs [name info]] & Hx & _ & _ & Hv)].
  cbn in Hv. subst v. exists dirs, name. by apply listing_file_at.
Qed.

Lemma new_among_set_each days all :
  new_among days all =
  set_each fst snd (fun item => is_new (cutoff_of days) (snd item)) all [].
Proof. reflexivity. Qed.

Lemma session_after_app b a c :
  session_after b (a ++ c) =
  match session_after b a with
  | Some b' => session_after b' c
  | None => None
  end.
Proof.
  revert b. induction a as [|e a IH]; intros b; [done|].
  destruct e, b; cbn; by rewrite ?IH.
Qed.

Lemma session_after_fetches destination (l : list (string * CameraFileInfo)) :
  session_after true (flat_map (fetch_events destination) l) = Some true.
Proof.
  induction l as [|item l IH]; [done|].
  cbn [flat_map]. unfold fetch_events at 1.
  destruct (posixpath.split (fst item)) as [folder name]. cbn. exact IH.
Qed.

Lemma has_sep_basename p : posixpath.has_sep (posixpath.basename p) = false.
Proof.
  unfold posixpath.basename. induction p as [|c r IH]; [done|].
  cbn. destruct (posixpath.has_sep r) eqn:Hr.
  - by destruct (posixpath.cut r).
  - destruct (Ascii.eqb c posixpath.sep) eqn:Hc; cbn; [done|].
    by rewrite Hc, Hr.
Qed.

End CameraEffects.

(** X1.  When no file of the device is recent enough, [download_new_files]
    returns the empty list after one scan and one session of the camera:
    the destination is not created and the camera is not opened a second
    time. *)
Theorem download_nothing_new `{Externals}
    (camera_info : CameraInfo) (days : Z) (destination : string) (s : State) :
  stale camera_info (detect_calls s) = false →
  (∀ dirs name info, file_at device_root dirs name info →
                     is_new (cutoff_of days) info = false) →
  download_new_files camera_info days destination s
  = (inr [], add_trace (scanned s) [CameraInit; CameraExit]).
Proof.
  intros Hidx Hold. rewrite download_new_files_step, Hidx.
  rewrite new_among_set_each, set_each_none; [done|].
  intros item (dirs & name & Hat)%collected_from_tree. by eapply Hold.
Qed.

Lemma download_nothing_new_witness :
  @stale sample_env sample_camera (detect_calls start) = false ∧
  (∀ dirs name info, file_at (@device_root sample_env) dirs name info →
                     is_new (@cutoff_of sample_env 0) info = false) ∧
  download_new_files sample_camera 0 "/tmp/dl" start
  = (inr [], add_trace (scanned start) [CameraInit; CameraExit]).
Proof.
  assert (Hold : ∀ dirs name info,
             file_at (@device_root sample_env) dirs name info →
             is_new (@cutoff_of sample_env 0) info = false).
  { intros dirs name info Hat%listing_file_at. cbn in Hat.
    destruct Hat as [E | [E | [E | []]]]; injection E as _ _ <-; reflexivity. }
  split; [reflexivity|]. split; [exact Hold|].
  apply (@download_nothing_new sample_env sample_camera 0 "/tmp/dl" start);
    [reflexivity | exact Hold].
Defined.

(** X2.  Whatever the device, the handle and the window, each of
    [list_files], [list_images], [list_new_files] and [download_new_files]
    only appends to the trace, and what it appends respects the session of
    the camera: the camera is opened only when closed, files are fetched
    only while it is open, and it is closed when the method ends, also when
    the method raises. *)
Theorem camera_sessions_closed `{Externals}
    (camera_info : CameraInfo) (days : Z) (destination : string) (s : State) :
  (∃ ev, trace (exec (list_files camera_info) s) = trace s ++ ev
         ∧ session_after false ev = Some false) ∧
  (∃ ev, trace (exec (list_images camera_info) s) = trace s ++ ev
         ∧ session_after false ev = Some false) ∧
  (∃ ev, trace (exec (list_new_files camera_info days) s) = trace s ++ ev
         ∧ session_after false ev = Some false) ∧
  (∃ ev, trace (exec (download_new_files camera_info days destination) s)
         = trace s ++ ev
         ∧ session_after false ev = Some false).
Proof.
  unfold exec.
  rewrite list_files_step, list_new_files_step, list_images_effects,
    download_new_files_step.
  destruct (stale camera_info (detect_calls s)).
  { repeat split; exists []; by rewrite app_nil_r. }
  split; [by exists [CameraInit; CameraExit]|].
  split; [by exists [CameraInit; CameraExit]|].
  split; [by exists [CameraInit; CameraExit]|].
  cbv zeta. destruct (new_among _ _) as [|item rest].
  { by exists [CameraInit; CameraExit]. }
  destruct (stale camera_info (S (detect_calls s))).
  - exists [CameraInit; CameraExit; MakeDirs destination].
    split; [|done]. cbn. by rewrite <- !app_assoc.
  - exists ([CameraInit; CameraExit; MakeDirs destination]
            ++ CameraInit :: flat_map (fetch_events destination) (item :: rest)
            ++ [CameraExit]).
    split; [cbn [snd add_trace scanned trace]; by rewrite <- !app_assoc|].
    change (session_after false
              ([CameraInit; CameraExit; MakeDirs destination] ++
               CameraInit :: flat_map (fetch_events destination) (item :: rest)
               ++ [CameraExit]))
      with (session_after true
              (flat_map (fetch_events destination) (item :: rest) ++ [CameraExit])).
    by rewrite session_after_app, session_after_fetches.
Qed.

(** X3.  The local paths that [download_new_files] returns are one per file
    that [list_new_files] keeps, and each lies directly in the destination:
    it is the join of the destination and a name without separator. *)
Theorem download_paths_flat `{Externals}
    (camera_info : CameraInfo) (days : Z) (destination : string) (s : State)
    (result : list string) :
  run (download_new_files camera_info days destination) s = inr result →
  ∃ new_files,
    run (list_new_files camera_info days) s = inr new_files ∧
    length result = length new_files ∧
    ∀ local_path, In local_path result →
      ∃ name, posixpath.has_sep name = false
              ∧ local_path = posixpath.join destination name.
Proof.
  rewrite download_new_files_cases.
  destruct (stale camera_info (detect_calls s)) eqn:Hidx; [done|].
  intros Hrun. exists (new_among days (_recurse_and_collect "/" device_root [])).
  rewrite list_new_files_run by done. split; [done|].
  assert (result = map (fun item => posixpath.join destination
                                      (posixpath.basename (fst item)))
                       (new_among days (_recurse_and_collect "/" device_root [])))
    as ->.
  { destruct (new_among _ _) as [|item rest]; [by injection Hrun|].
    destruct (stale camera_info (S (detect_calls s))); [done|].
    by injection Hrun. }
  split; [by rewrite length_map|].
  intros local_path (item & <- & _)%in_map_iff.
  exists (posixpath.basename (fst item)). split; [apply has_sep_basename | done].
Qed.

Lemma download_paths_flat_witness :
  run (download_new_files sample_camera 2 "/tmp/dl") start
  = inr ["/tmp/dl/IMG1.JPG"; "/tmp/dl/IMG3.JPG"] ∧
  ∃ new_files,
    run (list_new_files sample_camera 2) start = inr new_files ∧
    length ["/tmp/dl/IMG1.JPG"; "/tmp/dl/IMG3.JPG"] = length new_files ∧
    ∀ local_path, In local_path ["/tmp/dl/IMG1.JPG"; "/tmp/dl/IMG3.JPG"] →
      ∃ name, posixpath.has_sep name = false
              ∧ local_path = posixpath.join "/tmp/dl" name.
Proof.
  split; [reflexivity|].
  apply (@download_paths_flat sample_env sample_camera 2 "/tmp/dl" start).
  reflexivity.
Defined.

(** ** Files that share a base name, paths listed twice *)





Example twin_download :
  run (@download_new_files twin_env sample_camera 2 "/tmp/dl") start
  = inr ["/tmp/dl/IMG1.JPG"; "/tmp/dl/IMG1.JPG"].
Proof. reflexivity. Qed.

(** X5.  On any folder tree, also one that lists a path more than once,
    the dictionary of [list_images] has each path of [list_files] as a key
    exactly once, and the info it holds for a path is that of the file the
    walk met last under that path. *)
Theorem list_images_last_info_wins `{Externals}
    (camera_info : CameraInfo) (s : State) :
  stale camera_info (detect_calls s) = false →
  ∃ paths images,
    run (list_files camera_info) s = inr paths ∧
    run (list_images camera_info) s = inr images ∧
    map fst (walk_of device_root) = paths ∧
    NoDup (map fst images) ∧
    (∀ p, In p (map fst images) ↔ In p paths) ∧
    (∀ p, dict_find p images = last_with_key p (walk_of device_root)).
Proof.
  intros Hidx.
  exists (_list_files_in_folder "/" device_root),
         (_recurse_and_collect "/" device_root []).
  rewrite list_files_run, list_images_run, Hidx.
  split; [done|]. split; [done|].
  rewrite list_files_listing, recurse_listing. unfold walk_of.
  change (fold_left _ (listing device_root) [])
    with (set_each (walked_path "/") (fun x => snd (snd x)) (fun _ => true)
                   (listing device_root) []).
  split; [by rewrite map_map|]. split; [|split].
  - apply set_each_NoDup. constructor.
  - intros p. rewrite set_each_keys. split.
    + intros [[] | (x & Hx & _ & Hk)]. apply in_map_iff. by exists x.
    + intros (x & Hk & Hx)%in_map_iff. right. by exists x.
  - intros p. rewrite set_each_find. by destruct (last_with_key p _).
Qed.

Lemma list_images_last_info_wins_witness :
  @stale twice_env sample_camera (detect_calls start) = false ∧
  ∃ paths images,
    run (@list_files twice_env sample_camera) start = inr paths ∧
    run (@list_images twice_env sample_camera) start = inr images ∧
    map fst (walk_of (@device_root twice_env)) = paths ∧
    NoDup (map fst images) ∧
    (∀ p, In p (map fst images) ↔ In p paths) ∧
    (∀ p, dict_find p images = last_with_key p (walk_of (@device_root twice_env))).
Proof.
  split; [reflexivity|].
  apply (@list_images_last_info_wins twice_env sample_camera start). reflexivity.
Defined.

Example twice_listed :
  run (@list_files twice_env sample_camera) start
  = inr ["/A.JPG"; "/B.JPG"; "/A.JPG"] ∧
  run (@list_images twice_env sample_camera) start
  = inr [("/A.JPG", info_at 1996500); ("/B.JPG", info_at 1996400)].
Proof. split; reflexivity. Qed.

(** ** Handles and the scan they come from *)

Section HandleFacts.
Context `{Externals}.

Lemma entries_sorted (k : nat) (l : list (string * string)) :
  StronglySorted Z.lt
    (map index (flat_map entry_of (combine (map Z.of_nat (seq k (length l))) l)))
  ∧ Forall (fun i => (Z.of_nat k <= i)%Z)
      (map index (flat_map entry_of (combine (map Z.of_nat (seq k (length l))) l))).
Proof.
  revert k. induction l as [|[name port] l IH]; intros k.
  - cbn. split; constructor.
  - cbn [length seq map combine flat_map]. destruct (IH (S k)) as [Hs Hf].
    assert (Hf' : Forall (fun i => (Z.of_nat k < i)%Z)
                    (map index (flat_map entry_of
                       (combine (map Z.of_nat (seq (S k) (length l))) l)))).
    { eapply Forall_impl; [exact Hf|]. cbn. intros i Hi. lia. }
    unfold entry_of at 1 3.
    destruct (String.prefix "usb:" port) eqn:Hp.
    + destruct (describe_camera (Z.of_nat k) port) as [e | [info|]] eqn:Hd.
      * cbn. split; [done|]. eapply Forall_impl; [exact Hf'|]. cbn. lia.
      * destruct (describe_camera_inv _ _ _ Hp Hd) as [Hi _].
        cbn. rewrite Hi. split.
        -- by constructor.
        -- constructor; [lia|]. eapply Forall_impl; [exact Hf'|]. cbn. lia.
      * cbn. split; [done|]. eapply Forall_impl; [exact Hf'|]. cbn. lia.
    + cbn. split; [done|]. eapply Forall_impl; [exact Hf'|]. cbn. lia.
Qed.

Lemma entries_length (l : list (Z * (string * string))) :
  (length (flat_map entry_of l) ≤ length l)%nat.
Proof.
  induction l as [|[idx [name port]] l IH]; [done|].
  cbn [flat_map length]. rewrite length_app. unfold entry_of at 1.
  destruct (String.prefix "usb:" port); [|cbn; lia].
  destruct (describe_camera idx port) as [e | [info|]]; cbn; lia.
Qed.

Lemma is_new_wider (days days' : Z) (info : CameraFileInfo) :
  (days <= days')%Z →
  is_new (cutoff_of days) info = true → is_new (cutoff_of days') info = true.
Proof.
  intros Hle. unfold is_new. destruct (file info) as [f|]; [|done].
  rewrite !Qle_bool_iff. intros Hc. eapply Qle_trans; [|exact Hc].
  unfold cutoff_of. apply Qplus_le_r. apply Qopp_le_compat.
  rewrite <- Zle_Qle. lia.
Qed.

End HandleFacts.

(** X6.  [list_connected_cameras] never raises.  Every handle it returns
    is in range for the scan it was made from and names the device that
    scan has at the handle's index (same bus, same address); the indices of
    the handles increase strictly, and there are at most as many handles
    as scanned devices. *)
Theorem handles_match_scan `{Externals} (s : State) :
  ∃ cams,
    run list_connected_cameras s = inr cams ∧
    Forall (fun info => stale info (detect_calls s) = false
                        ∧ same_device info (detect_calls s) = true) cams ∧
    StronglySorted Z.lt (map index cams) ∧
    (length cams ≤ length (autodetect_at (detect_calls s)))%nat.
Proof.
  exists (flat_map entry_of (enumerate (autodetect_at (detect_calls s)))).
  unfold run. rewrite list_connected_cameras_step. split; [done|].
  split; [|split].
  - apply List.Forall_forall. intros info ([idx [name port]] & Hin & He)%in_flat_map.
    unfold entry_of in He.
    destruct (String.prefix "usb:" port) eqn:Hp; [|done].
    destruct (describe_camera idx port) as [e | [info'|]] eqn:Hd; try done.
    destruct He as [-> | []].
    destruct (describe_camera_inv _ _ _ Hp Hd) as [Hi Ha].
    unfold enumerate in Hin.
    destruct (numbered_in 0 _ _ _ Hin) as (i & Hidx & Hnth).
    cbn in Hidx. rewrite <- Hi in Hidx.
    assert (i < length (autodetect_at (detect_calls s)))%nat as Hlt.
    { apply nth_error_Some. congruence. }
    split.
    + unfold stale. rewrite Z.geb_leb. apply Z.leb_gt. lia.
    + unfold same_device. rewrite Hidx, Nat2Z.id, Hnth, Ha.
      rewrite !Z.eqb_refl. cbn. apply andb_true_iff. split; [|done].
      apply Z.leb_le. lia.
  - apply (entries_sorted 0).
  - etrans; [apply entries_length|]. unfold enumerate.
    rewrite length_combine, length_map, length_seq. lia.
Qed.

Example handles_odd_ports :
  run (@list_connected_cameras odd_ports_env) start
  = inr [ {| index := 2; bus := 1; device := 4;
             manufacturer_id := "Nikon"; product_id := "Unknown" |} ].
Proof. reflexivity. Qed.

(** X7.  Widening the window never loses a file: every path that
    [list_new_files] keeps for [days] it also keeps for any larger number
    of days. *)
Theorem wider_window_keeps_more `{Externals}
    (camera_info : CameraInfo) (days days' : Z) (s : State) :
  (days <= days')%Z →
  stale camera_info (detect_calls s) = false →
  ∃ kept kept',
    run (list_new_files camera_info days) s = inr kept ∧
    run (list_new_files camera_info days') s = inr kept' ∧
    incl (map fst kept) (map fst kept').
Proof.
  intros Hle Hidx. eexists _, _.
  split; [by apply list_new_files_run|]. split; [by apply list_new_files_run|].
  rewrite !new_among_set_each. intros p.
  rewrite !set_each_keys. intros [[] | (x & Hx & Hn & Hk)].
  right. exists x. split; [done|]. split; [|done]. by eapply is_new_wider.
Qed.

Lemma wider_window_witness :
  (2 <= 20)%Z ∧
  @stale sample_env sample_camera (detect_calls start) = false ∧
  ∃ kept kept',
    run (list_new_files sample_camera 2) start = inr kept ∧
    run (list_new_files sample_camera 20) start = inr kept' ∧
    incl (map fst kept) (map fst kept').
Proof.
  split; [lia|]. split; [reflexivity|].
  apply (@wider_window_keeps_more sample_env sample_camera 2 20 start);
    [lia | reflexivity].
Defined.

(** ** More on the catalog *)

Lemma where_clause_self (r : ImageMetadata) : where_clause r r = true.
Proof. apply where_clause_same_content, same_content_refl. Qed.


(** X8.  After [add] of a batch of records that SQLite stores, the rows
    whose file name the batch does not have are the rows the table had with
    such names, in their order and ahead of the others; every other row is a
    record of the batch; the table grows by at most the size of the
    batch. *)
Theorem add_keeps_other_rows (batch : list ImageMetadata) (s : State) :
  Forall storable batch →
  ∃ kept new,
    images (exec (add batch) s) = kept ++ new ∧
    kept = List.filter (fun row => negb (named_in batch row)) (images s) ∧
    (∀ row, In row new → In row batch) ∧
    (length new ≤ length batch)%nat ∧
    (length (images (exec (add batch) s)) ≤ length (images s) + length batch)%nat.
Proof.
  intros _.
  exists (List.filter (fun row => negb (named_in batch row)) (images s)),
         (keep_last batch).
  unfold exec. rewrite rows_after_add. cbn [snd images].
  fold (upsert batch (images s)). rewrite upsert_rows.
  assert (Hlen : (length (keep_last batch) ≤ length batch)%nat).
  { clear. induction batch as [|x b IH]; [done|]. cbn.
    destruct (named_in b x); cbn; lia. }
  split; [done|]. split; [done|]. split; [apply keep_last_incl|].
  split; [done|]. rewrite length_app.
  pose proof (filter_length_le (fun row => negb (named_in batch row)) (images s)).
  lia.
Qed.

Lemma add_keeps_other_rows_witness :
  let batch := [renamed "B.JPG" shot; renamed "C.JPG" shot] in
  let s := exec (add [shot; renamed "B.JPG" shot]) start in
  Forall storable batch ∧
  ∃ kept new,
    images (exec (add batch) s) = kept ++ new ∧
    kept = List.filter (fun row => negb (named_in batch row)) (images s) ∧
    (∀ row, In row new → In row batch) ∧
    (length new ≤ length batch)%nat ∧
    (length (images (exec (add batch) s)) ≤ length (images s) + length batch)%nat.
Proof.
  intros batch s.
  assert (Hb : Forall storable batch).
  { repeat constructor; cbn; lia. }
  split; [exact Hb|]. exact (add_keeps_other_rows batch s Hb).
Defined.

(** X9.  A record that is the last of the batch with its file name is
    found by [contains] after [add] of the batch, whatever the table held
    before, when the records of the batch are records that SQLite
    stores. *)
Theorem added_record_is_contained (batch : list ImageMetadata) (s : State)
    (n : string) (img : ImageMetadata) :
  Forall storable batch →
  last_named n batch = Some img →
  run (contains img) (exec (add batch) s) = inr true.
Proof.
  intros _ Hlast. unfold run. rewrite contains_step. cbn [fst]. f_equal.
  apply existsb_exists. exists img. split; [|apply where_clause_self].
  pose proof (rows_named_upsert n batch (images s)) as Hrows.
  rewrite Hlast in Hrows.
  assert (In img (rows_named n (upsert batch (images s)))) as Hin
    by (rewrite Hrows; by left).
  apply filter_In in Hin as [Hin _]. exact Hin.
Qed.

Lemma added_record_witness :
  Forall storable [shot; renamed "B.JPG" shot] ∧
  last_named "B.JPG" [shot; renamed "B.JPG" shot] = Some (renamed "B.JPG" shot) ∧
  run (contains (renamed "B.JPG" shot))
      (exec (add [shot; renamed "B.JPG" shot]) start) = inr true.
Proof.
  assert (Hb : Forall storable [shot; renamed "B.JPG" shot]).
  { repeat constructor; cbn; lia. }
  split; [exact Hb|]. split; [reflexivity|].
  apply (added_record_is_contained [shot; renamed "B.JPG" shot] start "B.JPG").
  - exact Hb.
  - reflexivity.
Defined.

(** A record that a later record of the same batch replaces need not be
    found. *)
Example replaced_record_not_contained :
  run (contains shot)
      (exec (add [shot; {| file_name := "A.JPG"; rating := 5; aperture := 4;
                           lens_id := ""; capture_time := "";
                           focal_length := 35; exposure_time := 1 # 60;
                           color_temperature := 1 |}]) start)
  = inr false.
Proof. reflexivity. Qed.

(** X10.  For batches of records that SQLite stores, two calls of [add]
    leave the state that one call with the concatenation of the two batches
    leaves; [add] of the empty batch changes nothing. *)
Theorem add_batches_compose (batch1 batch2 : list ImageMetadata) (s : State) :
  Forall storable batch1 → Forall storable batch2 →
  exec (add batch2) (exec (add batch1) s) = exec (add (batch1 ++ batch2)) s ∧
  exec (add []) s = s.
Proof.
  intros _ _.
  unfold exec. rewrite !rows_after_add. cbn [snd detect_calls trace images].
  split; [by rewrite fold_left_app | by destruct s].
Qed.

Lemma add_batches_compose_witness :
  let batch1 := [shot; renamed "B.JPG" shot] in
  let batch2 := [renamed "A.JPG" (renamed "B.JPG" shot); renamed "C.JPG" shot] in
  Forall storable batch1 ∧ Forall storable batch2 ∧
  exec (add batch2) (exec (add batch1) start)
  = exec (add (batch1 ++ batch2)) start ∧
  exec (add []) start = start.
Proof.
  intros batch1 batch2.
  assert (H1 : Forall storable batch1) by (repeat constructor; cbn; lia).
  assert (H2 : Forall storable batch2) by (repeat constructor; cbn; lia).
  split; [exact H1|]. split; [exact H2|].
  exact (add_batches_compose batch1 batch2 start H1 H2).
Defined.

(** X11.  With a thread count that is zero or negative, [rebuild] raises
    [ValueError] after it has cleared the catalog: no path is extracted,
    nothing is printed, and the rows the catalog held are gone. *)
Theorem rebuild_bad_width_loses_catalog `{Externals}
    (sched : list nat) (paths : list string) (thread_count : option Z)
    (s : State) :
  valid_width thread_count = false →
  rebuild sched paths thread_count s
  = (inl ValueError,
     {| detect_calls := detect_calls s; trace := trace s; images := [] |}).
Proof. intros Htc. unfold rebuild. rewrite Htc. reflexivity. Qed.

Lemma rebuild_bad_width_witness :
  valid_width (Some 0%Z) = false ∧
  rebuild [0%nat] ["/tmp/a/x.jpg"] (Some 0%Z) (exec (add [shot]) start)
  = (inl ValueError,
     {| detect_calls := detect_calls (exec (add [shot]) start);
        trace := trace (exec (add [shot]) start);
        images := [] |}).
Proof.
  split; [reflexivity|].
  apply (@rebuild_bad_width_loses_catalog sample_env). reflexivity.
Defined.

Section RebuildRows.
Context `{Externals}.



End RebuildRows.



(** ** [main.py]: choosing the camera *)

Section MainFacts.
Context `{Externals}.



Lemma download_new_images_step path days s out :
  download_new_images path days (s, out) =
  match last (flat_map entry_of (enumerate (autodetect_at (detect_calls s)))) with
  | None => (inl (IndexError "list index out of range"),
             (exec list_connected_cameras s, out))
  | Some camera =>
      match download_new_files camera days path (exec list_connected_cameras s) with
      | (inr files, s') => (inr files, (s', out ++ [Downloaded (length files)]))
      | (inl e, s') => (inl e, (s', out))
      end
  end.
Proof.
  unfold download_new_images, exec.
  unfold mbind at 1, Script_bind at 1, core at 1. cbn [fst snd].
  rewrite list_connected_cameras_step. cbn [fst snd].
  destruct (last _) as [camera|]; [|reflexivity].
  unfold mbind at 1, Script_bind at 1. unfold mret at 1, Script_ret at 1.
  unfold mbind at 1, Script_bind at 1, core at 1. cbn [fst snd].
  destruct (download_new_files camera days path _) as [[e|files] s']; reflexivity.
Qed.

End MainFacts.

(** X13.  When the enumeration returns no camera, [download_new_images]
    raises [IndexError] at [cams[-1]]: nothing is downloaded and nothing is
    printed by it. *)
Theorem no_camera_index_error `{Externals}
    (path : string) (days : Z) (s : State) (out : list Line) :
  run list_connected_cameras s = inr [] →
  download_new_images path days (s, out)
  = (inl (IndexError "list index out of range"),
     (exec list_connected_cameras s, out)).
Proof.
  unfold run. rewrite list_connected_cameras_step. cbn [fst].
  intros E. injection E as E. rewrite download_new_images_step, E. reflexivity.
Qed.

Lemma no_camera_witness :
  run (@list_connected_cameras no_camera_env) start = inr [] ∧
  @download_new_images no_camera_env "/tmp/dl" 2 (start, [])
  = (inl (IndexError "list index out of range"),
     (exec (@list_connected_cameras no_camera_env) start, [])).
Proof.
  split; [reflexivity|].
  apply (@no_camera_index_error no_camera_env). reflexivity.
Defined.



Example download_new_images_sample :
  fst (download_new_images "/tmp/dl" 2 (start, []))
  = inr ["/tmp/dl/IMG1.JPG"; "/tmp/dl/IMG3.JPG"] ∧
  snd (snd (download_new_images "/tmp/dl" 2 (start, []))) = [Downloaded 2].
Proof. split; reflexivity. Qed.

(** ** [main.py]: the candidates handed to the dialog *)

Section MainScript.
Context `{Externals}.

Lemma dict_set_in {V} (k k' : string) (v v' : V) (d : list (string * V)) :
  In (k', v') (dict_set k v d) → (k', v') = (k, v) ∨ In (k', v') d.
Proof.
  induction d as [|[k0 v0] d IH]; cbn; [intuition|].
  destruct (String.eqb k k0); cbn; intuition.
Qed.

Lemma load_all_loop (paths : list string) (acc : list (string * ImageMetadata))
    (w : State * list Line) :
  (∀ p, In p paths → ∃ md, load p = inr md) →
  ∃ d,
    for_each_line paths acc
      (fun downloaded_files x =>
         match load x with
         | inr md => mret (dict_set x md downloaded_files)
         | inl e => fail e
         end) w = (inr d, w) ∧
    (NoDup (map fst acc) → NoDup (map fst d)) ∧
    (∀ k, In k (map fst d) ↔ In k (map fst acc) ∨ In k paths) ∧
    (∀ k md, In (k, md) d → In (k, md) acc ∨ load k = inr md).
Proof.
  revert acc. induction paths as [|x paths IH]; intros acc Hok.
  - exists acc. split; [done|]. split; [done|]. split; [|by left].
    intros k. cbn. intuition.
  - destruct (Hok x) as [md Hmd]; [by left|].
    destruct (IH (dict_set x md acc)) as (d & Hrun & Hnd & Hkeys & Hvals).
    { intros p Hp. apply Hok. by right. }
    exists d. cbn [for_each_line]. unfold mbind at 1, Script_bind at 1.
    rewrite Hmd. unfold mret at 1, Script_ret at 1. split; [exact Hrun|].
    split; [|split].
    + intros Hacc. by apply Hnd, dict_set_NoDup.
    + intros k. rewrite Hkeys, dict_set_keys. cbn. intuition.
    + intros k md' [Hin%dict_set_in | Hl]%Hvals; [|by right].
      destruct Hin as [E | Hin]; [|by left].
      injection E as -> ->. by right.
Qed.

Lemma load_fail_loop (paths : list string) (acc : list (string * ImageMetadata))
    (w : State * list Line) p e :
  In p paths → load p = inl e →
  ∃ e',
    for_each_line paths acc
      (fun downloaded_files x =>
         match load x with
         | inr md => mret (dict_set x md downloaded_files)
         | inl e => fail e
         end) w = (inl e', w).
Proof.
  revert acc. induction paths as [|x paths IH]; intros acc Hp Hl; [done|].
  cbn [for_each_line]. unfold mbind at 1, Script_bind at 1.
  destruct (load x) as [e0|md] eqn:Hx.
  - by exists e0.
  - unfold mret at 1, Script_ret at 1. apply IH; [|done].
    destruct Hp as [-> | Hp]; [congruence | done].
Qed.

Lemma preselect_loop (d : list (string * ImageMetadata)) (acc : list string)
    (w : State * list Line) :
  for_each_line d acc
    (fun preselected_files item =>
       if (0 <? rating (snd item))%Z
       then say (Preselected (fst item));;
            mret (preselected_files ++ [fst item])
       else say (NotPreselected (fst item));;
            mret preselected_files) w
  = (inr (acc ++ map fst (List.filter (fun item => (0 <? rating (snd item))%Z) d)),
     (fst w, snd w ++ map (fun item => if (0 <? rating (snd item))%Z
                                       then Preselected (fst item)
                                       else NotPreselected (fst item)) d)).
Proof.
  revert acc w. induction d as [|item d IH]; intros acc w.
  - cbn. rewrite !app_nil_r. by destruct w.
  - cbn [for_each_line List.filter map]. unfold mbind at 1, Script_bind at 1.
    destruct (0 <? rating (snd item))%Z;
      unfold mbind at 1, Script_bind at 1, say at 1;
      unfold mret at 1, Script_ret at 1; rewrite IH; cbn [fst snd map];
      by rewrite <- !app_assoc.
Qed.

Lemma init_selected (imgs pre : list string) :
  gui.selected (gui.__init__ imgs (Some pre)) = list_to_set pre.
Proof. by destruct pre. Qed.

Lemma init_preselected (imgs pre : list string) :
  gui.preselected (gui.__init__ imgs (Some pre)) = list_to_set pre.
Proof. by destruct pre. Qed.

Lemma init_images (imgs : list string) pre :
  gui.images (gui.__init__ imgs pre) = imgs.
Proof. reflexivity. Qed.

End MainScript.

(** X15.  When the download succeeds and exiftool reads every downloaded
    file, the dialog that [main] builds lists each downloaded path once,
    also when the download returned a path twice; the paths selected at the
    start are exactly those whose record has a rating above 0; and one line
    is printed per listed path. *)
Theorem main_candidates `{Externals}
    (tmpdir : string) (w w1 : State * list Line) (paths : list string) :
  download_new_images tmpdir DAYS_SINCE_SYNC w = (inr paths, w1) →
  (∀ p, In p paths → ∃ md, load p = inr md) →
  ∃ d lines,
    main tmpdir w = (inr d, (fst w1, snd w1 ++ lines)) ∧
    NoDup (gui.images d) ∧
    (∀ p, In p (gui.images d) ↔ In p paths) ∧
    (∀ p, p ∈ gui.selected d ↔
          In p paths ∧ ∃ md, load p = inr md ∧ (0 < rating md)%Z) ∧
    gui.preselected d = gui.selected d ∧
    length lines = length (gui.images d).
Proof.
  intros Hdl Hok.
  destruct (load_all_loop paths [] w1 Hok) as (d & Hrun & Hnd & Hkeys & Hvals).
  eexists _, _. unfold main. unfold mbind at 1, Script_bind at 1. rewrite Hdl.
  unfold mbind at 1, Script_bind at 1. rewrite Hrun.
  unfold mbind at 1, Script_bind at 1. rewrite preselect_loop.
  unfold mret at 1, Script_ret at 1. cbn [app].
  split; [reflexivity|]. rewrite init_selected, init_preselected, init_images.
  assert (Hkeys' : ∀ k, In k (map fst d) ↔ In k paths).
  { intros k. rewrite Hkeys. cbn. intuition. }
  assert (Hvals' : ∀ k md, In (k, md) d → load k = inr md).
  { intros k md [[] | Hl]%Hvals. done. }
  split; [apply Hnd; constructor|]. split; [done|]. split; [|split].
  - intros p. rewrite elem_of_list_to_set, list_elem_of_In, in_map_iff. split.
    + intros ([k md] & <- & [Hin Hr]%filter_In). cbn in *.
      split; [apply Hkeys'; apply in_map_iff; by exists (k, md)|].
      exists md. split; [by apply Hvals'|]. by apply Z.ltb_lt.
    + intros (Hp & md & Hl & Hr).
      assert (In p (map fst d)) as ([k md'] & <- & Hin)%in_map_iff
        by (by apply Hkeys').
      exists (k, md'). split; [done|]. apply filter_In. split; [done|].
      cbn in *. pose proof (Hvals' k md' Hin) as Hl'.
      apply Z.ltb_lt. congruence.
  - done.
  - by rewrite !length_map.
Qed.

Lemma main_candidates_witness :
  @download_new_images main_env "/tmp/dl" DAYS_SINCE_SYNC (start, [])
  = (inr ["/tmp/dl/IMG1.JPG"; "/tmp/dl/IMG3.JPG"],
     (exec (@download_new_files main_env sample_camera 2 "/tmp/dl")
           (exec (@list_connected_cameras main_env) start),
      [Downloaded 2])) ∧
  (∀ p, In p ["/tmp/dl/IMG1.JPG"; "/tmp/dl/IMG3.JPG"] →
        ∃ md, @load main_env p = inr md) ∧
  ∃ d lines,
    @main main_env "/tmp/dl" (start, [])
    = (inr d,
       (exec (@download_new_files main_env sample_camera 2 "/tmp/dl")
             (exec (@list_connected_cameras main_env) start),
        [Downloaded 2] ++ lines)) ∧
    NoDup (gui.images d) ∧
    (∀ p, In p (gui.images d) ↔ In p ["/tmp/dl/IMG1.JPG"; "/tmp/dl/IMG3.JPG"]) ∧
    (∀ p, p ∈ gui.selected d ↔
          In p ["/tmp/dl/IMG1.JPG"; "/tmp/dl/IMG3.JPG"]
          ∧ ∃ md, @load main_env p = inr md ∧ (0 < rating md)%Z) ∧
    gui.preselected d = gui.selected d ∧
    length lines = length (gui.images d).
Proof.
  assert (Hok : ∀ p, In p ["/tmp/dl/IMG1.JPG"; "/tmp/dl/IMG3.JPG"] →
                     ∃ md, @load main_env p = inr md).
  { intros p [<- | [<- | []]]; by eexists. }
  split; [reflexivity|]. split; [exact Hok|].
  apply (@main_candidates main_env "/tmp/dl" (start, [])
           (exec (@download_new_files main_env sample_camera 2 "/tmp/dl")
                 (exec (@list_connected_cameras main_env) start),
            [Downloaded 2])
           ["/tmp/dl/IMG1.JPG"; "/tmp/dl/IMG3.JPG"]);
    [reflexivity | exact Hok].
Defined.

Example main_sample_lines :
  snd (snd (@main main_env "/tmp/dl" (start, [])))
  = [Downloaded 2; Preselected "/tmp/dl/IMG1.JPG";
     NotPreselected "/tmp/dl/IMG3.JPG"].
Proof. reflexivity. Qed.

(** X16.  When exiftool fails on one of the downloaded files, [main]
    raises before any path is printed or offered for selection: the
    failure is not skipped as [rebuild] skips it. *)
Theorem main_load_failure_aborts `{Externals}
    (tmpdir : string) (w w1 : State * list Line) (paths : list string)
    (p : string) (e : exn) :
  download_new_images tmpdir DAYS_SINCE_SYNC w = (inr paths, w1) →
  In p paths → load p = inl e →
  ∃ e', main tmpdir w = (inl e', w1).
Proof.
  intros Hdl Hp Hl.
  destruct (load_fail_loop paths [] w1 p e Hp Hl) as [e' Hrun].
  exists e'. unfold main. unfold mbind at 1, Script_bind at 1. rewrite Hdl.
  unfold mbind at 1, Script_bind at 1. by rewrite Hrun.
Qed.

Lemma main_load_failure_witness :
  download_new_images "/tmp/dl" DAYS_SINCE_SYNC (start, [])
  = (inr ["/tmp/dl/IMG1.JPG"; "/tmp/dl/IMG3.JPG"],
     (exec (download_new_files sample_camera 2 "/tmp/dl")
           (exec list_connected_cameras start),
      [Downloaded 2])) ∧
  In "/tmp/dl/IMG1.JPG" ["/tmp/dl/IMG1.JPG"; "/tmp/dl/IMG3.JPG"] ∧
  load "/tmp/dl/IMG1.JPG" = inl (LibraryError "exiftool") ∧
  ∃ e', main "/tmp/dl" (start, [])
        = (inl e',
           (exec (download_new_files sample_camera 2 "/tmp/dl")
                 (exec list_connected_cameras start),
            [Downloaded 2])).
Proof.
  split; [reflexivity|]. split; [by left|]. split; [reflexivity|].
  apply (@main_load_failure_aborts sample_env "/tmp/dl" (start, []) _
           ["/tmp/dl/IMG1.JPG"; "/tmp/dl/IMG3.JPG"] "/tmp/dl/IMG1.JPG"
           (LibraryError "exiftool")); [reflexivity | by left | reflexivity].
Defined.

(** ** [gui.py]: the selection dialog *)

Section GuiFacts.

Lemma numbered_lookup {A} (k : nat) (l : list A) (i : nat) :
  combine (map Z.of_nat (seq k (length l))) l !! i
  = (fun x => (Z.of_nat (k + i), x)) <$> l !! i.
Proof.
  revert k i. induction l as [|x l IH]; intros k i; [done|].
  destruct i as [|i]; cbn.
  - by rewrite Nat.add_0_r.
  - rewrite IH. by replace (S k + i)%nat with (k + S i)%nat by lia.
Qed.

Lemma enumerate_lookup {A} (l : list A) (i : nat) :
  enumerate l !! i = (fun x => (Z.of_nat i, x)) <$> l !! i.
Proof. unfold enumerate. by rewrite numbered_lookup. Qed.

Lemma enumerate_snd {A} (l : list A) : map snd (enumerate l) = l.
Proof.
  unfold enumerate. generalize 0%nat.
  induction l as [|x l IH]; intros k; [done|]. cbn. by rewrite IH.
Qed.

Lemma draw_loop (opens : string → bool) (c : Z) (l : list (Z * string))
    (d : gui.ImageSelectionDialog) (printed : list string) :
  let r := fold_left (gui.draw_one opens c) l (d, printed) in
  gui.frames (fst r) = gui.frames d ++ map (frame_of opens c (gui.selected d)) l ∧
  gui.selected (fst r) = gui.selected d ∧
  gui.preselected (fst r) = gui.preselected d ∧
  gui.images (fst r) = gui.images d ∧
  gui.columns (fst r) = gui.columns d ∧
  snd r = printed ++ List.filter (fun p => negb (opens p)) (map snd l).
Proof.
  revert d printed. induction l as [|[idx p] l IH]; intros d printed; cbv zeta.
  - cbn. by rewrite !app_nil_r.
  - cbn [fold_left].
    set (acc1 := gui.draw_one opens c (d, printed) (idx, p)).
    specialize (IH (fst acc1) (snd acc1)). cbv zeta in IH.
    rewrite <- surjective_pairing in IH.
    destruct IH as (Hf & Hs & Hpre & Hi & Hc & Hpr).
    rewrite Hf, Hs, Hpre, Hi, Hc, Hpr.
    unfold acc1, gui.draw_one, frame_of. cbn [fst snd map List.filter].
    destruct (opens p); cbn; by rewrite <- ?app_assoc.
Qed.

Lemma draw_initial (canvas_width root_width : Z) (opens : string → bool)
    (d : gui.ImageSelectionDialog) :
  let r := gui._draw_images canvas_width root_width opens true d in
  let c := columns_for canvas_width root_width in
  gui.frames (fst r) = map (frame_of opens c (gui.selected d)) (enumerate (gui.images d)) ∧
  gui.selected (fst r) = gui.selected d ∧
  gui.preselected (fst r) = gui.preselected d ∧
  gui.images (fst r) = gui.images d ∧
  gui.columns (fst r) = Some c ∧
  snd r = List.filter (fun p => negb (opens p)) (gui.images d).
Proof.
  unfold gui._draw_images. cbn [negb andb].
  match goal with |- context [fold_left _ ?l (?d1, [])] =>
    pose proof (draw_loop opens (columns_for canvas_width root_width) l d1 [])
      as Hloop end.
  cbn zeta in Hloop. rewrite enumerate_snd in Hloop. exact Hloop.
Qed.

Lemma toggle_mem (frame : nat) (q p : string) (d : gui.ImageSelectionDialog) :
  bool_decide (p ∈ gui.selected (gui._toggle frame q d))
  = xorb (bool_decide (p ∈ gui.selected d)) (String.eqb q p).
Proof.
  unfold gui._toggle.
  destruct (decide (q ∈ gui.selected d)) as [Hq|Hq]; cbn [gui.selected];
    destruct (String.eqb_spec q p) as [-> | Hne];
    repeat case_bool_decide; try done; set_solver.
Qed.

Lemma toggle_frames (frame : nat) (q : string) (d : gui.ImageSelectionDialog) :
  gui.frames (gui._toggle frame q d)
  = alter (gui.config (if decide (q ∈ gui.selected d) then gui.Gray else gui.Blue))
          frame (gui.frames d).
Proof. unfold gui._toggle. by destruct (decide (q ∈ gui.selected d)). Qed.

Lemma click_frames_match opens images d i :
  frames_match opens images d → frames_match opens images (gui.click d i).
Proof.
  intros [Hlen Hm]. unfold gui.click.
  destruct (gui.frames d !! i) as [f|] eqn:Hf; [|done].
  destruct (gui.clickable f); [|done].
  split.
  - by rewrite toggle_frames, length_alter.
  - intros j g. rewrite toggle_frames.
    destruct (decide (j = i)) as [-> | Hne].
    + rewrite list_lookup_alter_eq, Hf. cbn. intros E. injection E as <-.
      cbn. by apply Hm.
    + rewrite list_lookup_alter_ne by done. apply Hm.
Qed.

Lemma click_mem opens images d i p :
  frames_match opens images d →
  bool_decide (p ∈ gui.selected (gui.click d i))
  = xorb (bool_decide (p ∈ gui.selected d)) (hits opens images p i).
Proof.
  intros [Hlen Hm]. unfold gui.click, hits.
  destruct (gui.frames d !! i) as [f|] eqn:Hf.
  - destruct (Hm i f Hf) as [-> Hc]. rewrite <- Hc.
    destruct (gui.clickable f); [|by rewrite xorb_false_r].
    by rewrite toggle_mem.
  - apply lookup_ge_None in Hf. rewrite Hlen in Hf.
    apply lookup_ge_None in Hf. rewrite Hf. by rewrite xorb_false_r.
Qed.

Lemma click_borders opens images d i :
  NoDup images → frames_match opens images d →
  borders_agree d → borders_agree (gui.click d i).
Proof.
  intros Hnd [Hlen Hm] Hb. unfold gui.click.
  destruct (gui.frames d !! i) as [f|] eqn:Hf; [|done].
  destruct (gui.clickable f) eqn:Hc; [|done].
  intros j g. rewrite toggle_frames.
  destruct (decide (j = i)) as [-> | Hne].
  - rewrite list_lookup_alter_eq, Hf. cbn. intros E _. injection E as <-. cbn.
    unfold gui._toggle.
    destruct (decide (gui.path f ∈ gui.selected d)) as [Hin|Hin];
      cbn [gui.selected].
    + rewrite decide_False by set_solver. done.
    + rewrite decide_True by set_solver. done.
  - rewrite list_lookup_alter_ne by done. intros Hg Hcg.
    rewrite (Hb j g Hg Hcg). f_equal.
    assert (gui.path g ≠ gui.path f) as Hpath.
    { intros E. destruct (Hm j g Hg) as [Hj _]. destruct (Hm i f Hf) as [Hi _].
      rewrite E in Hj. apply Hne. by eapply NoDup_lookup. }
    pose proof (toggle_mem i (gui.path f) (gui.path g) d) as Hmem.
    destruct (String.eqb_spec (gui.path f) (gui.path g)) as [E|_]; [by symmetry in E|].
    rewrite xorb_false_r in Hmem.
    destruct (decide (gui.path g ∈ gui.selected d)) as [Hin|Hin].
    + rewrite (bool_decide_eq_true_2 _ Hin) in Hmem.
      apply bool_decide_eq_true_1 in Hmem. by rewrite decide_True.
    + rewrite (bool_decide_eq_false_2 _ Hin) in Hmem.
      apply bool_decide_eq_false_1 in Hmem. by rewrite decide_False.
Qed.

Lemma drawn_frames_match cw rw opens d :
  frames_match opens (gui.images d) (fst (gui._draw_images cw rw opens true d)).
Proof.
  destruct (draw_initial cw rw opens d) as (Hf & _).
  unfold frames_match. rewrite Hf. split.
  - rewrite length_map. unfold enumerate.
    rewrite length_combine, length_map, length_seq. lia.
  - intros i f.
    change (map ?g ?l) with (g <$> l).
    rewrite list_lookup_fmap, enumerate_lookup.
    destruct (gui.images d !! i) as [p|] eqn:Hp; [|done]. cbn.
    intros E. injection E as <-. done.
Qed.

Lemma drawn_borders cw rw opens d :
  borders_agree (fst (gui._draw_images cw rw opens true d)).
Proof.
  destruct (draw_initial cw rw opens d) as (Hf & Hs & _).
  unfold borders_agree. intros i f. rewrite Hf, Hs.
  change (map ?g ?l) with (g <$> l).
  rewrite list_lookup_fmap, enumerate_lookup.
  destruct (gui.images d !! i) as [p|]; [|done]. cbn.
  intros E. injection E as <-. cbn. by intros ->.
Qed.

End GuiFacts.

Section GuiRuns.

Lemma clicks_frames_match opens images (clicks : list nat) d :
  frames_match opens images d →
  frames_match opens images (fold_left gui.click clicks d).
Proof.
  revert d. induction clicks as [|i clicks IH]; intros d Hm; [done|].
  cbn. by apply IH, click_frames_match.
Qed.

Lemma clicks_borders opens images (clicks : list nat) d :
  NoDup images → frames_match opens images d →
  borders_agree d → borders_agree (fold_left gui.click clicks d).
Proof.
  intros Hnd. revert d. induction clicks as [|i clicks IH]; intros d Hm Hb; [done|].
  cbn. apply IH; [by apply click_frames_match | by eapply click_borders].
Qed.

Lemma clicks_mem opens images (clicks : list nat) d p :
  frames_match opens images d →
  bool_decide (p ∈ gui.selected (fold_left gui.click clicks d))
  = xorb (bool_decide (p ∈ gui.selected d)) (Nat.odd (flips opens images p clicks)).
Proof.
  revert d. induction clicks as [|i clicks IH]; intros d Hm.
  - cbn. by rewrite xorb_false_r.
  - cbn [fold_left]. rewrite IH by (by apply click_frames_match).
    rewrite (click_mem opens images) by done.
    unfold flips. cbn [List.filter].
    destruct (hits opens images p i); cbn [length].
    + rewrite Nat.odd_succ, <- Nat.negb_odd.
      by destruct (bool_decide _), (Nat.odd _).
    + by rewrite xorb_false_r.
Qed.

End GuiRuns.

(** X17.  [_toggle] changes the membership of its path in the selection
    and of no other path; toggling the same path twice restores the
    selection; the images, the preselection and the number of frames stay
    as they are. *)
Theorem toggle_flips_one (frame : nat) (p : string) (d : gui.ImageSelectionDialog) :
  (∀ q, q ∈ gui.selected (gui._toggle frame p d) ↔
        (q = p ∧ p ∉ gui.selected d) ∨ (q ≠ p ∧ q ∈ gui.selected d)) ∧
  gui.selected (gui._toggle frame p (gui._toggle frame p d)) = gui.selected d ∧
  gui.images (gui._toggle frame p d) = gui.images d ∧
  gui.preselected (gui._toggle frame p d) = gui.preselected d ∧
  length (gui.frames (gui._toggle frame p d)) = length (gui.frames d).
Proof.
  split; [|split; [|split; [|split]]].
  - intros q. unfold gui._toggle.
    destruct (decide (p ∈ gui.selected d)) as [Hp|Hp]; cbn [gui.selected];
      destruct (decide (q = p)) as [-> | Hne]; set_solver.
  - apply set_eq. intros q.
    assert (E : bool_decide (q ∈ gui.selected (gui._toggle frame p (gui._toggle frame p d)))
                = bool_decide (q ∈ gui.selected d)).
    { rewrite !toggle_mem.
      by destruct (String.eqb p q), (bool_decide (q ∈ gui.selected d)). }
    split; intros Hq.
    + apply (bool_decide_eq_true_1 _). rewrite <- E. by apply bool_decide_eq_true_2.
    + apply (bool_decide_eq_true_1 _). rewrite E. by apply bool_decide_eq_true_2.
  - unfold gui._toggle. by destruct (decide _).
  - unfold gui._toggle. by destruct (decide _).
  - by rewrite toggle_frames, length_alter.
Qed.

(** X18.  A first draw gives the grid at least one column, makes one frame
    per image in the order of the images, and puts the frame of the image
    at position [i] in row [i // columns] and column [i % columns], so that
    the column is below the number of columns and no two frames share a
    cell; a frame reacts to clicks exactly when the thumbnail of its image
    could be made, the other paths are printed, and the selection is not
    changed. *)
Theorem draw_grid (canvas_width root_width : Z) (opens : string → bool)
    (d : gui.ImageSelectionDialog) :
  let r := gui._draw_images canvas_width root_width opens true d in
  ∃ c,
    gui.columns (fst r) = Some c ∧ (1 <= c)%Z ∧
    c = Z.max 1 ((if (canvas_width <? 270)%Z then root_width else canvas_width) / 270) ∧
    length (gui.frames (fst r)) = length (gui.images d) ∧
    (∀ i f, gui.frames (fst r) !! i = Some f →
       gui.images d !! i = Some (gui.path f) ∧
       (0 <= gui.col f < c)%Z ∧
       (gui.row f * c + gui.col f = Z.of_nat i)%Z ∧
       gui.clickable f = opens (gui.path f)) ∧
    snd r = List.filter (fun p => negb (opens p)) (gui.images d) ∧
    gui.selected (fst r) = gui.selected d.
Proof.
  intros r. subst r.
  destruct (draw_initial canvas_width root_width opens d)
    as (Hf & Hs & _ & _ & Hc & Hpr).
  destruct (drawn_frames_match canvas_width root_width opens d) as [Hlen Hm].
  exists (columns_for canvas_width root_width).
  assert (1 <= columns_for canvas_width root_width)%Z as Hpos
    by (unfold columns_for; lia).
  split; [done|]. split; [done|]. split; [done|]. split; [done|].
  split; [|done].
  intros i f Hi. destruct (Hm i f Hi) as [Himg Hcl].
  rewrite Hf in Hi. change (map ?g ?l) with (g <$> l) in Hi.
  rewrite list_lookup_fmap, enumerate_lookup, Himg in Hi. cbn in Hi.
  injection Hi as <-. cbn. split; [done|].
  split; [apply Z.mod_pos_bound; lia|]. split; [|done].
  rewrite Z.mul_comm. symmetry. apply Z.div_mod. lia.
Qed.

Example draw_sample :
  gui._draw_images 800 900 sample_opens true sample_dialog
  = ({| gui.images := ["a.jpg"; "b.jpg"; "c.nef"];
        gui.preselected := {["a.jpg"]}; gui.selected := {["a.jpg"]};
        gui.image_refs := {["b.jpg"]} ∪ ({["a.jpg"]} ∪ ∅);
        gui.columns := Some 2%Z;
        gui.frames :=
          [ {| gui.row := 0; gui.col := 0; gui.path := "a.jpg";
               gui.clickable := true; gui.border := Some gui.Blue |};
            {| gui.row := 0; gui.col := 1; gui.path := "b.jpg";
               gui.clickable := true; gui.border := Some gui.Gray |};
            {| gui.row := 1; gui.col := 0; gui.path := "c.nef";
               gui.clickable := false; gui.border := None |} ] |},
     ["c.nef"]).
Proof.
  unfold gui._draw_images, sample_dialog. cbn.
  repeat (rewrite decide_True by set_solver || rewrite decide_False by set_solver).
  reflexivity.
Qed.

(** X19.  A draw that is not the first and finds the number of columns
    unchanged destroys every frame and makes none: the grid is left empty,
    and nothing else of the dialog changes. *)
Theorem redraw_same_columns_empties (canvas_width root_width : Z)
    (opens : string → bool) (d : gui.ImageSelectionDialog) :
  gui.columns d
  = Some (Z.max 1 ((if (canvas_width <? 270)%Z then root_width else canvas_width) / 270)) →
  gui._draw_images canvas_width root_width opens false d
  = ({| gui.images := gui.images d; gui.preselected := gui.preselected d;
        gui.selected := gui.selected d; gui.image_refs := gui.image_refs d;
        gui.columns := gui.columns d; gui.frames := [] |}, []).
Proof.
  intros Hc. unfold gui._draw_images. rewrite Hc. cbn [negb andb].
  change (gui.thumb_width + 20)%Z with 270%Z. by rewrite Z.eqb_refl.
Qed.

Lemma redraw_same_columns_witness :
  gui.columns (fst (gui._draw_images 800 900 sample_opens true sample_dialog))
  = Some (Z.max 1 ((if (800 <? 270)%Z then 900 else 800) / 270)) ∧
  gui._draw_images 800 900 sample_opens false
    (fst (gui._draw_images 800 900 sample_opens true sample_dialog))
  = ({| gui.images :=
          gui.images (fst (gui._draw_images 800 900 sample_opens true sample_dialog));
        gui.preselected :=
          gui.preselected (fst (gui._draw_images 800 900 sample_opens true sample_dialog));
        gui.selected :=
          gui.selected (fst (gui._draw_images 800 900 sample_opens true sample_dialog));
        gui.image_refs :=
          gui.image_refs (fst (gui._draw_images 800 900 sample_opens true sample_dialog));
        gui.columns :=
          gui.columns (fst (gui._draw_images 800 900 sample_opens true sample_dialog));
        gui.frames := [] |}, []).
Proof.
  assert (Hc : gui.columns (fst (gui._draw_images 800 900 sample_opens true sample_dialog))
               = Some (Z.max 1 ((if (800 <? 270)%Z then 900 else 800) / 270))).
  { destruct (draw_initial 800 900 sample_opens sample_dialog)
      as (_ & _ & _ & _ & Hc & _). exact Hc. }
  split; [exact Hc|].
  apply (redraw_same_columns_empties 800 900 sample_opens). exact Hc.
Defined.

(** X20.  When no image is listed twice, then after [show], whatever the
    operator clicked, the border of every frame that reacts to clicks is
    blue exactly when its image is selected. *)
Theorem borders_show_selection (canvas_width root_width : Z)
    (opens : string → bool) (clicks : list nat) (d : gui.ImageSelectionDialog) :
  NoDup (gui.images d) →
  borders_agree (fst (fst (gui.show canvas_width root_width opens clicks d))).
Proof.
  intros Hnd. unfold gui.show.
  pose proof (drawn_frames_match canvas_width root_width opens d) as Hm.
  pose proof (drawn_borders canvas_width root_width opens d) as Hb.
  destruct (gui._draw_images canvas_width root_width opens true d) as [d1 printed].
  cbn [fst] in *. by eapply clicks_borders.
Qed.

Lemma borders_show_selection_witness :
  NoDup (gui.images sample_dialog) ∧
  borders_agree (fst (fst (gui.show 800 900 sample_opens [1; 0; 2; 1; 1]%nat sample_dialog))).
Proof.
  assert (Hnd : NoDup (gui.images sample_dialog)).
  { apply (bool_decide_unpack _). vm_compute. exact I. }
  split; [exact Hnd|].
  apply (borders_show_selection 800 900 sample_opens [1; 0; 2; 1; 1]%nat sample_dialog).
  exact Hnd.
Defined.

(** X21.  The selection that [show] returns is the selection the dialog
    had before, with each image flipped once for every click on a frame of
    it whose thumbnail could be made: a path is returned exactly when it
    was selected and hit an even number of times, or not selected and hit an
    odd number of times. *)
Theorem show_returns_flipped_selection (canvas_width root_width : Z)
    (opens : string → bool) (clicks : list nat) (d : gui.ImageSelectionDialog)
    (p : string) :
  In p (snd (gui.show canvas_width root_width opens clicks d)) ↔
  xorb (bool_decide (p ∈ gui.selected d))
       (Nat.odd (flips opens (gui.images d) p clicks)) = true.
Proof.
  unfold gui.show.
  pose proof (drawn_frames_match canvas_width root_width opens d) as Hm.
  destruct (draw_initial canvas_width root_width opens d) as (_ & Hs & _).
  destruct (gui._draw_images canvas_width root_width opens true d) as [d1 printed].
  cbn [fst snd] in *.
  rewrite <- list_elem_of_In, elem_of_elements, <- Hs.
  rewrite <- (clicks_mem opens (gui.images d)) by done.
  symmetry. apply bool_decide_eq_true.
Qed.

Example show_sample :
  In "b.jpg" (snd (gui.show 800 900 sample_opens [1; 0; 2; 1; 1]%nat sample_dialog))
  ∧ ¬ In "a.jpg" (snd (gui.show 800 900 sample_opens [1; 0; 2; 1; 1]%nat sample_dialog))
  ∧ ¬ In "c.nef" (snd (gui.show 800 900 sample_opens [1; 0; 2; 1; 1]%nat sample_dialog)).
Proof.
  assert (snd (gui.show 800 900 sample_opens [1; 0; 2; 1; 1]%nat sample_dialog)
          = ["b.jpg"]) as -> by (by vm_compute).
  split; [by left|]. split; by intros [? | []].
Qed.
